(** * aiohttp.signals: the [Signal] receiver registry and its dispatch

    A shallow embedding of [aiohttp/signals.py].  [Signal] is a
    [MutableSequence] that wraps a Python list of receivers and a frozenset
    of parameter names; registration checks each receiver, [send] calls the
    receivers one after the other and delegates to what each call returns.

    Python objects are modelled as follows.
    - The frozenset [_parameters] is a [gset string].
    - The list [_receivers] is a [list Receiver]; Python indices are integers
      ([Z]), negative ones counting from the end.  Slice indices are outside
      the model.
    - [__debug__] is a boolean of the interpreter: [true] by default, [false]
      under [python -O], where the compiler drops every [assert] statement
      and every [if __debug__:] block.
    - Methods that mutate [self] or raise are computations in a state and
      exception monad over the [Signal] object. *)

From Stdlib Require Import ZArith Lia.
From stdpp Require Import base option list gmap strings.

Set Default Proof Using "Type".
Local Open Scope Z_scope.

(** ** Exceptions and results *)

Inductive exn : Type :=
| AssertionError
| TypeError
| IndexError
| OverflowError
| Exception (name : string).

Inductive outcome (A : Type) : Type :=
| Returned (a : A)
| Raised (e : exn).
Arguments Returned {A} a.
Arguments Raised {A} e.

(** ** Python list primitives used by [Signal]

    [list.__getitem__], [list.__setitem__] and [list.__delitem__] accept an
    index [i] with [-len <= i < len] and raise [IndexError] otherwise.
    [list.insert] converts its index to a C [Py_ssize_t], which raises
    [OverflowError] when the integer does not fit, and then clamps it
    ([ins1]).  [Py_ssize_t] has 64 bits, as on the usual builds; lists too
    long to grow are outside the model. *)

Module PyList.
Section Ops.
Context {A : Type}.

(* position designated by index [i] in a list of length [n] *)
Definition position (n : nat) (i : Z) : option nat :=
  if Z.leb 0 i
  then (if Z.ltb i (Z.of_nat n) then Some (Z.to_nat i) else None)
  else (if Z.leb (- Z.of_nat n) i then Some (Z.to_nat (Z.of_nat n + i)) else None).

Definition getitem (l : list A) (i : Z) : outcome A :=
  match position (length l) i with
  | Some p => match l !! p with Some x => Returned x | None => Raised IndexError end
  | None => Raised IndexError
  end.

Definition setitem (l : list A) (i : Z) (x : A) : outcome (list A) :=
  match position (length l) i with
  | Some p => Returned (<[p := x]> l)
  | None => Raised IndexError
  end.

Definition delitem (l : list A) (i : Z) : outcome (list A) :=
  match position (length l) i with
  | Some p => Returned (delete p l)
  | None => Raised IndexError
  end.

(* CPython's ins1: [if where < 0: where += n; if where < 0: where = 0];
   [if where > n: where = n] *)
Definition insert_position (n : nat) (i : Z) : nat :=
  let i1 := if Z.ltb i 0 then i + Z.of_nat n else i in
  let i2 := if Z.ltb i1 0 then 0 else i1 in
  let i3 := if Z.ltb (Z.of_nat n) i2 then Z.of_nat n else i2 in
  Z.to_nat i3.

Definition ins1 (l : list A) (i : Z) (x : A) : list A :=
  let p := insert_position (length l) i in
  take p l ++ x :: drop p l.

Definition PY_SSIZE_T_MAX : Z := 2 ^ 63 - 1.
Definition PY_SSIZE_T_MIN : Z := - PY_SSIZE_T_MAX - 1.

(* the integer [i] fits a [Py_ssize_t] *)
Definition fits (i : Z) : Prop := PY_SSIZE_T_MIN <= i <= PY_SSIZE_T_MAX.

Definition insert (l : list A) (i : Z) (x : A) : outcome (list A) :=
  if Z.leb PY_SSIZE_T_MIN i && Z.leb i PY_SSIZE_T_MAX
  then Returned (ins1 l i x)
  else Raised OverflowError.

Definition append (l : list A) (x : A) : list A := l ++ [x].

Definition clear (l : list A) : list A := [].

End Ops.
End PyList.

(** ** Signatures

    The parameters of a callable, as [inspect.signature] reports them. *)

Inductive kind : Type :=
| POSITIONAL_ONLY
| POSITIONAL_OR_KEYWORD
| VAR_POSITIONAL
| KEYWORD_ONLY
| VAR_KEYWORD.

Record Param : Type := {
  name : string;
  pkind : kind;
  has_default : bool
}.

(** Modelled from the spec: [inspect.Signature.bind], which registration
    calls with one keyword argument per recognized name, is Python library
    code and not part of the repository.  The spec asks that "the receiver
    must be callable as [receiver(p1=_, p2=_, ...)] for every [p] in the
    recognized set"; for a call that passes keywords only this is the
    library's rule: every parameter that is neither [*args] nor [**kwargs]
    takes the keyword of its name, a positional-only parameter cannot be
    passed by keyword, a parameter left without a keyword needs a default,
    and keywords left over need a [**kwargs] parameter.  Only the names of
    the keywords matter (the values are all [None]); [kwargs_param] tells
    whether a [**kwargs] parameter has been met. *)
Fixpoint bind_params (params : list Param) (kwargs : gset string)
    (kwargs_param : bool) : outcome unit :=
  match params with
  | [] =>
      if decide (kwargs = ∅) then Returned tt
      else if kwargs_param then Returned tt
      else Raised TypeError
  | param :: params' =>
      match pkind param with
      | VAR_KEYWORD => bind_params params' kwargs true
      | VAR_POSITIONAL => bind_params params' kwargs kwargs_param
      | k =>
          if decide (name param ∈ kwargs) then
            match k with
            | POSITIONAL_ONLY => Raised TypeError
            | _ => bind_params params' (kwargs ∖ {[name param]}) kwargs_param
            end
          else if has_default param then bind_params params' kwargs kwargs_param
          else Raised TypeError
      end
  end.

Definition bind (signature : list Param) (kwargs : gset string) : outcome unit :=
  bind_params signature kwargs false.

(** ** Receivers and the objects their calls return

    [V] is the type of argument values, [Y] the type of the values a
    suspended computation yields to the event loop (futures), and [W] the
    state of the application the receivers act on.  The registry itself is
    not part of [W]: receivers that mutate the signal they are dispatched
    from are outside the model. *)

Section Model.
Context {V Y W : Type}.

(** An iterator: advancing it finds it exhausted, raises, yields a value or
    runs code over the application state.  The type is inductive: an
    iteration takes finitely many steps, and an iterator that never ends
    is outside the model. *)
#[warnings="-register-all"]
Inductive iterator : Type :=
| StopIteration
| Throw (e : exn)
| Yield (y : Y) (rest : iterator)
| Resume (code : W -> W * iterator).

(* induction on iterators, through the code of [Resume] *)
Fixpoint iterator_induction (P : iterator -> Prop)
    (Hstop : P StopIteration)
    (Hthrow : forall e, P (Throw e))
    (Hyield : forall y rest, P rest -> P (Yield y rest))
    (Hresume : forall code, (forall w, P (snd (code w))) -> P (Resume code))
    (it : iterator) : P it :=
  match it with
  | StopIteration => Hstop
  | Throw e => Hthrow e
  | Yield y rest =>
      Hyield y rest (iterator_induction P Hstop Hthrow Hyield Hresume rest)
  | Resume code =>
      Hresume code
        (fun w => iterator_induction P Hstop Hthrow Hyield Hresume (snd (code w)))
  end.

(** What a call returns: an iterable (generator, future, ...) or an object
    that cannot be iterated ([None], a number, ...). *)
Inductive object : Type :=
| NotIterable
| Iterable (it : iterator).

(** A receiver is a Python callable: [rid] is its identity ([is]),
    [equals] what comparing it with the object of a given identity by [==]
    gives (plain functions are equal to themselves only, two bound methods
    of one object are equal without being identical, and a user-defined
    [__eq__] may raise), [iscoroutinefunction] what
    [asyncio.iscoroutinefunction] answers on it, [signature] the parameter
    list [inspect.signature] reports for it, and [body] what calling it
    with keyword arguments does: binding them to its own parameters, which
    raises [TypeError] when they do not fit, and running. *)
Record Receiver : Type := {
  rid : nat;
  equals : nat -> outcome bool;
  iscoroutinefunction : bool;
  signature : list Param;
  body : gmap string V -> W -> W * outcome object
}.

(** [value in l] on a list: the items are compared with the value in
    order, by identity first and then by [==], up to the first that
    matches; an exception of [==] propagates. *)
Fixpoint list_contains (l : list Receiver) (value : Receiver) : outcome bool :=
  match l with
  | [] => Returned false
  | item :: l' =>
      if Nat.eqb (rid item) (rid value) then Returned true
      else match equals item (rid value) with
           | Returned true => Returned true
           | Returned false => list_contains l' value
           | Raised e => Raised e
           end
  end.

Record Signal : Type := {
  _parameters : gset string;
  _receivers : list Receiver
}.

(** ** The monad of methods: state [self], exceptions *)

Definition M (A : Type) : Type := Signal -> Signal * outcome A.

#[local] Instance M_ret : MRet M := fun A a self => (self, Returned a).

#[local] Instance M_bind : MBind M := fun A B f c self =>
  match c self with
  | (self', Returned a) => f a self'
  | (self', Raised e) => (self', Raised e)
  end.

Definition raise {A : Type} (e : exn) : M A := fun self => (self, Raised e).

Definition lift {A : Type} (o : outcome A) : M A := fun self => (self, o).

Definition get_self : M Signal := fun self => (self, Returned self).

(* [self._receivers] is mutated in place; [_parameters] is never assigned *)
Definition set_receivers (l : list Receiver) : M unit := fun self =>
  ({| _parameters := _parameters self; _receivers := l |}, Returned tt).

Definition __init__ (parameters : list string) : Signal :=
  {| _parameters := list_to_set parameters; _receivers := [] |}.

Section Methods.
Variable __debug__ : bool.

(* the statement [assert cond, msg] *)
Definition assert_ (cond : bool) : M unit :=
  if __debug__ then (if cond then mret tt else raise AssertionError) else mret tt.

Definition __len__ : M nat :=
  self ← get_self; mret (length (_receivers self)).

Definition __iter__ : M (list Receiver) :=
  self ← get_self; mret (_receivers self).

Definition __contains__ (value : Receiver) : M bool :=
  self ← get_self; lift (list_contains (_receivers self) value).

Definition __getitem__ (index : Z) : M Receiver :=
  self ← get_self; lift (PyList.getitem (_receivers self) index).

Definition __reversed__ : M (list Receiver) :=
  self ← get_self; mret (reverse (_receivers self)).

Definition __setitem__ (index : Z) (receiver : Receiver) : M unit :=
  assert_ (negb (iscoroutinefunction receiver));;
  (if __debug__ then
     self ← get_self; lift (bind (signature receiver) (_parameters self))
   else mret tt);;
  self ← get_self;
  l ← lift (PyList.setitem (_receivers self) index receiver);
  set_receivers l.

Definition __delitem__ (index : Z) : M unit :=
  self ← get_self;
  l ← lift (PyList.delitem (_receivers self) index);
  set_receivers l.

Definition insert (index : Z) (receiver : Receiver) : M unit :=
  assert_ (negb (iscoroutinefunction receiver));;
  (if __debug__ then
     self ← get_self; lift (bind (signature receiver) (_parameters self))
   else mret tt);;
  self ← get_self;
  l ← lift (PyList.insert (_receivers self) index receiver);
  set_receivers l.

Definition append (receiver : Receiver) : M unit :=
  assert_ (negb (iscoroutinefunction receiver));;
  (if __debug__ then
     self ← get_self; lift (bind (signature receiver) (_parameters self))
   else mret tt);;
  self ← get_self;
  set_receivers (PyList.append (_receivers self) receiver).

Definition clear : M unit :=
  self ← get_self;
  set_receivers (PyList.clear (_receivers self)).

End Methods.

(** ** Dispatch

    [send] is a generator-based coroutine.  The model runs it the way
    [yield from signal.send(...)] drives it, to its end, in the monad [D]:
    state [W], exceptions, and a trace that records what the dispatch does
    (each call it makes, each value it yields to the event loop, each
    delegation that ends).  Nothing else runs while [send] is suspended, and
    the exceptions of receivers are ordinary ones: a [StopIteration] that
    escapes a receiver is outside the model. *)

Inductive event : Type :=
| Invoke (receiver : nat) (kwargs : gmap string V)
| Suspend (y : Y)
| Complete (receiver : nat).

Definition D (A : Type) : Type := W -> W * list event * outcome A.

#[local] Instance D_ret : MRet D := fun A a w => (w, [], Returned a).

#[local] Instance D_bind : MBind D := fun A B f c w =>
  match c w with
  | (w', tr, Returned a) => let '(w'', tr', o) := f a w' in (w'', tr ++ tr', o)
  | (w', tr, Raised e) => (w', tr, Raised e)
  end.

Definition tell (ev : event) : D unit := fun w => (w, [ev], Returned tt).

Definition throw {A : Type} (e : exn) : D A := fun w => (w, [], Raised e).

(** The call of [receiver] with the keyword arguments [kwargs]. *)
Definition call (receiver : Receiver) (kwargs : gmap string V) : D object :=
  fun w => let (w', o) := body receiver kwargs w in (w', [], o).

(** Advancing an iterator until it is exhausted or raises. *)
Fixpoint exhaust (it : iterator) : D unit :=
  match it with
  | StopIteration => mret tt
  | Throw e => throw e
  | Yield y rest => tell (Suspend y);; exhaust rest
  | Resume code => fun w => let (w', it') := code w in exhaust it' w'
  end.

(** The expression [yield from obj]: [iter(obj)] raises [TypeError] on an
    object that is not iterable. *)
Definition yield_from (obj : object) : D unit :=
  match obj with
  | NotIterable => throw TypeError
  | Iterable it => exhaust it
  end.

(* one turn of the loop of [send] *)
Definition dispatch (receiver : Receiver) (kwargs : gmap string V) : D unit :=
  tell (Invoke (rid receiver) kwargs);;
  obj ← call receiver kwargs;
  yield_from obj;;
  tell (Complete (rid receiver)).

Fixpoint send_loop (receivers : list Receiver) (kwargs : gmap string V) : D unit :=
  match receivers with
  | [] => mret tt
  | receiver :: receivers' =>
      dispatch receiver kwargs;; send_loop receivers' kwargs
  end.

Definition send (self : Signal) (kwargs : gmap string V) : D unit :=
  send_loop (_receivers self) kwargs.

(** ** Sequences of operations *)

Inductive operation : Type :=
| Append (receiver : Receiver)
| Insert (index : Z) (receiver : Receiver)
| SetItem (index : Z) (receiver : Receiver)
| Delete (index : Z)
| Clear
| Send (kwargs : gmap string V)
| Length
| Get (index : Z)
| Contains (value : Receiver)
| Iterate
| IterateReversed.

Definition succeeded {A : Type} (o : outcome A) : bool :=
  match o with Returned _ => true | Raised _ => false end.

(* runs a method on [self] and keeps whether it returned *)
Definition method {A : Type} (m : M A) (self : Signal) (w : W) : Signal * W * bool :=
  let (self', o) := m self in (self', w, succeeded o).

Definition perform (__debug__ : bool) (op : operation) (self : Signal) (w : W)
    : Signal * W * bool :=
  match op with
  | Append receiver => method (append __debug__ receiver) self w
  | Insert index receiver => method (insert __debug__ index receiver) self w
  | SetItem index receiver => method (__setitem__ __debug__ index receiver) self w
  | Delete index => method (__delitem__ index) self w
  | Clear => method clear self w
  | Send kwargs => let '(w', _, o) := send self kwargs w in (self, w', succeeded o)
  | Length => method __len__ self w
  | Get index => method (__getitem__ index) self w
  | Contains value => method (__contains__ value) self w
  | Iterate => method __iter__ self w
  | IterateReversed => method __reversed__ self w
  end.

(* the operations in order, with the journal of which ones returned *)
Fixpoint run (__debug__ : bool) (ops : list operation) (self : Signal) (w : W)
    : Signal * W * list (operation * bool) :=
  match ops with
  | [] => (self, w, [])
  | op :: ops' =>
      let '(self', w', ok) := perform __debug__ op self w in
      let '(self'', w'', journal) := run __debug__ ops' self' w' in
      (self'', w'', (op, ok) :: journal)
  end.

Definition is_insertion (entry : operation * bool) : bool :=
  match entry with
  | (Append _, true) | (Insert _ _, true) => true
  | _ => false
  end.

Definition is_deletion (entry : operation * bool) : bool :=
  match entry with
  | (Delete _, true) => true
  | _ => false
  end.

Definition insertions (journal : list (operation * bool)) : nat :=
  length (filter (fun entry => is_insertion entry = true) journal).

Definition deletions (journal : list (operation * bool)) : nat :=
  length (filter (fun entry => is_deletion entry = true) journal).

(* what a successful entry of the journal does to a plain list *)
Definition replay_entry (l : list Receiver) (entry : operation * bool)
    : list Receiver :=
  match entry with
  | (Append receiver, true) => l ++ [receiver]
  | (Insert index receiver, true) => PyList.ins1 l index receiver
  | (Delete index, true) =>
      match PyList.position (length l) index with
      | Some p => delete p l
      | None => l
      end
  | _ => l
  end.

Definition replay (journal : list (operation * bool)) (l : list Receiver)
    : list Receiver :=
  foldl replay_entry l journal.

Definition sequence_only (op : operation) : Prop :=
  match op with
  | Append _ | Insert _ _ | Delete _ => True
  | _ => False
  end.

(** ** Vocabulary of the statements *)

(* the checks [__setitem__], [insert] and [append] make before they mutate *)
Definition validation (__debug__ : bool) (self : Signal) (receiver : Receiver)
    : outcome unit :=
  if __debug__ then
    if iscoroutinefunction receiver then Raised AssertionError
    else bind (signature receiver) (_parameters self)
  else Returned tt.

Definition with_receivers (self : Signal) (l : list Receiver) : Signal :=
  {| _parameters := _parameters self; _receivers := l |}.

(* the calls a trace records, in order *)
Definition invocations (tr : list event) : list (nat * gmap string V) :=
  omap (fun ev => match ev with Invoke r kw => Some (r, kw) | _ => None end) tr.

(* what the trace of one completed turn of the loop looks like *)
Definition turn (kwargs : gmap string V) (receiver : Receiver) (ys : list Y)
    : list event :=
  Invoke (rid receiver) kwargs :: (Suspend <$> ys) ++ [Complete (rid receiver)].

(* [receiver], called in state [w], returns an iterable whose iteration
   yields [ys] and then ends, leaving state [w'] *)
Definition completes (receiver : Receiver) (kwargs : gmap string V)
    (w w' : W) (ys : list Y) : Prop :=
  ∃ w1 it,
    call receiver kwargs w = (w1, [], Returned (Iterable it)) ∧
    exhaust it w1 = (w', Suspend <$> ys, Returned tt).

(* the receivers [receivers], dispatched one after the other from state
   [w], all complete: the i-th yields [yss !! i], and the last leaves [w'] *)
Fixpoint all_complete (receivers : list Receiver) (kwargs : gmap string V)
    (w w' : W) (yss : list (list Y)) : Prop :=
  match receivers, yss with
  | [], [] => w' = w
  | receiver :: receivers', ys :: yss' =>
      ∃ w1, completes receiver kwargs w w1 ys ∧
            all_complete receivers' kwargs w1 w' yss'
  | _, _ => False
  end.

(* the delegations a trace records as ended, in order *)
Definition completions (tr : list event) : list nat :=
  omap (fun ev => match ev with Complete r => Some r | _ => None end) tr.

(* [receiver], called in state [w], raises [e], in the call or later while
   what it returned is iterated, leaving state [w'] and trace [tr] *)
Definition raises (receiver : Receiver) (kwargs : gmap string V)
    (w w' : W) (tr : list event) (e : exn) : Prop :=
  (call receiver kwargs w = (w', [], Raised e) ∧ tr = []) ∨
  (∃ w1 it,
    call receiver kwargs w = (w1, [], Returned (Iterable it)) ∧
    exhaust it w1 = (w', tr, Raised e)).

End Model.

(** A receiver takes exactly the names [names]: one parameter per name,
    each of them passable by keyword. *)
Definition accepts_exactly (sig : list Param) (names : gset string) : Prop :=
  NoDup (name <$> sig) ∧
  list_to_set (name <$> sig) = names ∧
  Forall (fun p => pkind p = POSITIONAL_OR_KEYWORD ∨ pkind p = KEYWORD_ONLY) sig.

(* a parameter that takes one argument: neither [*args] nor [**kwargs] *)
Definition takes_one (p : Param) : Prop :=
  pkind p ≠ VAR_POSITIONAL ∧ pkind p ≠ VAR_KEYWORD.

(* the parameter [p] is satisfied by a call with the keywords [names] *)
Definition fits (names : gset string) (p : Param) : Prop :=
  (name p ∈ names → pkind p ≠ POSITIONAL_ONLY) ∧
  (name p ∉ names → has_default p = true).

Definition has_var_keyword (sig : list Param) : Prop :=
  ∃ p, p ∈ sig ∧ pkind p = VAR_KEYWORD.

Definition all_named (sig : list Param) (names : gset string) : Prop :=
  ∀ k, k ∈ names → ∃ p, p ∈ sig ∧ takes_one p ∧ name p = k.

(** A callable with parameters [sig] can be called with one keyword
    argument for each of [names]: no positional-only parameter is named, no
    parameter without a default is left out, and every name is the name of
    a parameter unless the callable takes [**kwargs]. *)
Definition callable_with (sig : list Param) (names : gset string) : Prop :=
  (∀ p, p ∈ sig → takes_one p → fits names p) ∧
  (has_var_keyword sig ∨ all_named sig names).

(** Every registered receiver passed the checks of a validating build:
    it is not a coroutine function and it can be called with one keyword
    argument per parameter name of the signal. *)
Definition registered_valid {V Y W : Type} (self : @Signal V Y W) : Prop :=
  Forall (fun receiver =>
            iscoroutinefunction receiver = false ∧
            bind (signature receiver) (_parameters self) = Returned tt)
         (_receivers self).

(** ** Concrete receivers

    [name] and [value] are the parameters of the signal; the application
    state is a log of receiver identities, as in a test that checks the
    order of dispatch. *)

Module Examples.

Definition required (n : string) : Param :=
  {| name := n; pkind := POSITIONAL_OR_KEYWORD; has_default := false |}.

Definition new_signal : @Signal Z nat (list nat) := __init__ ["name"; "value"]%string.

Definition arguments : gmap string Z :=
  <["name" := 120]> (<["value" := 1]> ∅).

(* the call of a function whose parameters are [names], none with a
   default, with keyword arguments: one is needed for each parameter, and
   no other is taken *)
Definition call_def (names : list string) (kwargs : gmap string Z)
    (run : list nat -> list nat * outcome (@object nat (list nat)))
    : list nat -> list nat * outcome (@object nat (list nat)) :=
  fun log =>
    if decide (dom kwargs = (list_to_set names : gset string))
    then run log else (log, Raised TypeError).

(* def plain(name, value): log.append(id) *)
Definition plain (id : nat) : @Receiver Z nat (list nat) :=
  {| rid := id; equals := fun other => Returned (Nat.eqb id other);
     iscoroutinefunction := false;
     signature := [required "name"; required "value"];
     body := fun kwargs =>
       call_def ["name"; "value"]%string kwargs
         (fun log => (log ++ [id], Returned NotIterable)) |}.

(* def gen(name, value): log.append(id); yield id; log.append(id) *)
Definition gen (id : nat) : @Receiver Z nat (list nat) :=
  {| rid := id; equals := fun other => Returned (Nat.eqb id other);
     iscoroutinefunction := false;
     signature := [required "name"; required "value"];
     body := fun kwargs =>
       call_def ["name"; "value"]%string kwargs (fun log =>
         (log, Returned (Iterable
            (Resume (fun log => (log ++ [id],
               Yield id (Resume (fun log => (log ++ [id], StopIteration))))))))) |}.

(* def failing(name, value): log.append(id); raise Exception("boom") *)
Definition failing (id : nat) : @Receiver Z nat (list nat) :=
  {| rid := id; equals := fun other => Returned (Nat.eqb id other);
     iscoroutinefunction := false;
     signature := [required "name"; required "value"];
     body := fun kwargs =>
       call_def ["name"; "value"]%string kwargs
         (fun log => (log ++ [id], Raised (Exception "boom"))) |}.

(* async def coro(name, value): log.append(id) *)
Definition coro (id : nat) : @Receiver Z nat (list nat) :=
  {| rid := id; equals := fun other => Returned (Nat.eqb id other);
     iscoroutinefunction := true;
     signature := [required "name"; required "value"];
     body := fun kwargs =>
       call_def ["name"; "value"]%string kwargs (fun log =>
         (log, Returned (Iterable
            (Resume (fun log => (log ++ [id], StopIteration)))))) |}.

(* obj.method, read once more for each identity: the bound methods whose
   identities are [peers] are equal to this one *)
Definition bound (id : nat) (peers : list nat) : @Receiver Z nat (list nat) :=
  {| rid := id;
     equals := fun other => Returned (bool_decide (other ∈ id :: peers));
     iscoroutinefunction := false;
     signature := [required "name"; required "value"];
     body := fun kwargs =>
       call_def ["name"; "value"]%string kwargs
         (fun log => (log ++ [id], Returned NotIterable)) |}.

(* def short(name): log.append(id) *)
Definition short (id : nat) : @Receiver Z nat (list nat) :=
  {| rid := id; equals := fun other => Returned (Nat.eqb id other);
     iscoroutinefunction := false;
     signature := [required "name"];
     body := fun kwargs =>
       call_def ["name"]%string kwargs
         (fun log => (log ++ [id], Returned NotIterable)) |}.

Definition ops0 : list (@operation Z nat (list nat)) :=
  [Append (gen 1); Append (gen 2); Insert 0 (gen 3); Delete 1; Delete 9;
   Append (coro 4); Insert (2 ^ 63) (gen 5)].

Definition ops1 : list (@operation Z nat (list nat)) :=
  [Append (gen 1); Send arguments; SetItem 0 (gen 2); Get 0; Contains (gen 2);
   Length; Iterate; IterateReversed; Insert (-1) (gen 3); Delete 0; Clear].

End Examples.

(** * Properties *)

(** ** Python list indices *)

(* turns the boolean comparisons met along a path into inequalities *)
Ltac Z_cases :=
  repeat match goal with
  | H : Z.ltb _ _ = true |- _ => apply Z.ltb_lt in H
  | H : Z.ltb _ _ = false |- _ => apply Z.ltb_ge in H
  | H : Z.leb _ _ = true |- _ => apply Z.leb_le in H
  | H : Z.leb _ _ = false |- _ => apply Z.leb_gt in H
  end.

Lemma position_Some (n : nat) (i : Z) (p : nat) :
  PyList.position n i = Some p ↔
  (0 ≤ i < Z.of_nat n ∧ p = Z.to_nat i) ∨
  (- Z.of_nat n ≤ i < 0 ∧ p = Z.to_nat (Z.of_nat n + i)).
Proof.
  unfold PyList.position.
  destruct (Z.leb_spec 0 i), (Z.ltb_spec i (Z.of_nat n)),
    (Z.leb_spec (- Z.of_nat n) i); split;
    try (intros [= <-]; lia); try (intros [[? ->]|[? ->]]; first [reflexivity | lia]);
    try discriminate.
Qed.

Lemma position_None (n : nat) (i : Z) :
  PyList.position n i = None ↔ i < - Z.of_nat n ∨ Z.of_nat n ≤ i.
Proof.
  unfold PyList.position.
  destruct (Z.leb_spec 0 i), (Z.ltb_spec i (Z.of_nat n)),
    (Z.leb_spec (- Z.of_nat n) i); split; try discriminate; try reflexivity; lia.
Qed.

Lemma position_lt (n : nat) (i : Z) (p : nat) :
  PyList.position n i = Some p → (p < n)%nat.
Proof. rewrite position_Some. lia. Qed.

Lemma insert_position_le (n : nat) (i : Z) : (PyList.insert_position n i ≤ n)%nat.
Proof.
  unfold PyList.insert_position. repeat case_match; Z_cases; lia.
Qed.

Lemma insert_position_cases (n : nat) (i : Z) :
  (Z.of_nat n ≤ i → PyList.insert_position n i = n) ∧
  (0 ≤ i ≤ Z.of_nat n → PyList.insert_position n i = Z.to_nat i) ∧
  (- Z.of_nat n ≤ i < 0 → PyList.insert_position n i = Z.to_nat (Z.of_nat n + i)) ∧
  (i < - Z.of_nat n → PyList.insert_position n i = 0%nat).
Proof.
  unfold PyList.insert_position. repeat case_match; Z_cases; repeat split; intros; lia.
Qed.

Lemma list_insert_fits {A : Type} (l : list A) (i : Z) (x : A) :
  PyList.fits i → PyList.insert l i x = Returned (PyList.ins1 l i x).
Proof.
  unfold PyList.fits, PyList.insert. intros [Hmin Hmax].
  apply Z.leb_le in Hmin, Hmax. by rewrite Hmin, Hmax.
Qed.

Lemma list_insert_overflow {A : Type} (l : list A) (i : Z) (x : A) :
  ¬ PyList.fits i → PyList.insert l i x = Raised OverflowError.
Proof.
  unfold PyList.fits, PyList.insert. intros Hno.
  destruct (Z.leb_spec PyList.PY_SSIZE_T_MIN i), (Z.leb_spec i PyList.PY_SSIZE_T_MAX);
    simpl; try reflexivity.
  destruct Hno. by split.
Qed.

Lemma list_insert_cases {A : Type} (l : list A) (i : Z) (x : A) :
  (PyList.fits i ∧ PyList.insert l i x = Returned (PyList.ins1 l i x)) ∨
  (¬ PyList.fits i ∧ PyList.insert l i x = Raised OverflowError).
Proof.
  destruct (decide (PyList.PY_SSIZE_T_MIN ≤ i ≤ PyList.PY_SSIZE_T_MAX)) as [H|H].
  - left. split; [exact H | by apply list_insert_fits].
  - right. split; [exact H | by apply list_insert_overflow].
Qed.

Lemma length_list_insert {A : Type} (l : list A) (i : Z) (x : A) :
  length (PyList.ins1 l i x) = S (length l).
Proof.
  unfold PyList.ins1.
  pose proof (insert_position_le (length l) i).
  rewrite length_app, length_take. simpl. rewrite length_drop. lia.
Qed.

(** ** Binding keyword arguments *)

Lemma bind_params_error (params : list Param) (kwargs : gset string) (flag : bool) :
  bind_params params kwargs flag = Returned tt ∨
  bind_params params kwargs flag = Raised TypeError.
Proof.
  revert kwargs flag. induction params as [|param params IH]; intros kwargs flag; simpl.
  - destruct (decide _), flag; auto.
  - destruct (pkind param); try apply IH;
      destruct (decide _); auto; destruct (has_default param); auto.
Qed.

Lemma bind_params_exact (sig : list Param) (names : gset string) (flag : bool) :
  NoDup (name <$> sig) →
  list_to_set (name <$> sig) = names →
  Forall (fun p => pkind p = POSITIONAL_OR_KEYWORD ∨ pkind p = KEYWORD_ONLY) sig →
  bind_params sig names flag = Returned tt.
Proof.
  revert names. induction sig as [|p sig IH]; intros names Hnd Hset Hk; simpl.
  - subst names. destruct (decide _) as [|[]]; reflexivity.
  - rewrite fmap_cons in Hnd, Hset. rewrite list_to_set_cons in Hset.
    apply NoDup_cons in Hnd as [Hnotin Hnd].
    apply Forall_cons in Hk as [Hp Hk].
    assert (Hin : name p ∈ names).
    { subst names. apply elem_of_union_l, elem_of_singleton. reflexivity. }
    assert (Hrest : list_to_set (name <$> sig) = names ∖ {[name p]}).
    { subst names. apply set_eq. intros x.
      rewrite elem_of_difference, elem_of_union, elem_of_singleton, elem_of_list_to_set.
      split.
      - intros Hx. split; [right; exact Hx|]. intros Heq. subst x. contradiction.
      - intros [[Heq | Hx] Hne]; [contradiction | exact Hx]. }
    destruct Hp as [Hp | Hp]; rewrite Hp;
      (destruct (decide _); [|contradiction]); by apply IH.
Qed.

Lemma bind_exact (sig : list Param) (names : gset string) :
  accepts_exactly sig names → bind sig names = Returned tt.
Proof. intros (? & ? & ?). by apply bind_params_exact. Qed.

Lemma has_var_keyword_cons (p : Param) (sig : list Param) :
  has_var_keyword (p :: sig) ↔ pkind p = VAR_KEYWORD ∨ has_var_keyword sig.
Proof.
  unfold has_var_keyword. split.
  - intros (q & [-> | Hq]%elem_of_cons & Hk); [by left | right; eauto].
  - intros [Hk | (q & Hq & Hk)]; [exists p | exists q]; split; auto;
      apply elem_of_cons; auto.
Qed.

Lemma all_named_skip (p : Param) (sig : list Param) (names : gset string) :
  ¬ (takes_one p ∧ name p ∈ names) →
  all_named (p :: sig) names ↔ all_named sig names.
Proof.
  intros Hp. unfold all_named. split; intros Hall k Hk.
  - destruct (Hall k Hk) as (q & [-> | Hq]%elem_of_cons & Hone & Hname).
    + exfalso. apply Hp. by rewrite Hname.
    + eauto.
  - destruct (Hall k Hk) as (q & Hq & Hone & Hname).
    exists q. split; [apply elem_of_cons; auto | auto].
Qed.

Lemma all_named_take (p : Param) (sig : list Param) (names : gset string) :
  takes_one p → (∀ q, q ∈ sig → name q ≠ name p) →
  all_named (p :: sig) names ↔ all_named sig (names ∖ {[name p]}).
Proof.
  intros Hone Hother. unfold all_named. split; intros Hall k Hk.
  - apply elem_of_difference in Hk as [Hk Hne]. rewrite elem_of_singleton in Hne.
    destruct (Hall k Hk) as (q & [-> | Hq]%elem_of_cons & Hq1 & Hname).
    + by destruct Hne.
    + eauto.
  - destruct (decide (k = name p)) as [-> | Hne].
    + exists p. split; [apply elem_of_cons; auto | auto].
    + destruct (Hall k) as (q & Hq & Hq1 & Hname).
      { apply elem_of_difference. rewrite elem_of_singleton. auto. }
      exists q. split; [apply elem_of_cons; auto | auto].
Qed.

Lemma fits_all_cons (p : Param) (sig : list Param) (names : gset string) :
  (∀ q, q ∈ p :: sig → takes_one q → fits names q) ↔
  (takes_one p → fits names p) ∧ (∀ q, q ∈ sig → takes_one q → fits names q).
Proof.
  split.
  - intros H. split; [apply H, elem_of_cons; auto |].
    intros q Hq. apply H, elem_of_cons. auto.
  - intros [Hp Hsig] q [-> | Hq]%elem_of_cons; auto.
Qed.

Lemma fits_all_difference (p : Param) (sig : list Param) (names : gset string) :
  (∀ q, q ∈ sig → name q ≠ name p) →
  (∀ q, q ∈ sig → takes_one q → fits (names ∖ {[name p]}) q) ↔
  (∀ q, q ∈ sig → takes_one q → fits names q).
Proof.
  intros Hother.
  assert (Hdiff : ∀ q, q ∈ sig → name q ∈ names ∖ {[name p]} ↔ name q ∈ names).
  { intros q Hq. rewrite elem_of_difference, elem_of_singleton.
    specialize (Hother q Hq). tauto. }
  unfold fits. split; intros H q Hq Hone; specialize (H q Hq Hone);
    specialize (Hdiff q Hq); tauto.
Qed.

Lemma bind_params_spec (sig : list Param) (names : gset string) (flag : bool) :
  NoDup (name <$> sig) →
  bind_params sig names flag = Returned tt ↔
  (∀ p, p ∈ sig → takes_one p → fits names p) ∧
  (flag = true ∨ has_var_keyword sig ∨ all_named sig names).
Proof.
  revert names flag. induction sig as [|p sig IH]; intros names flag Hnd; simpl.
  - destruct (decide (names = ∅)) as [->|Hne].
    + split; [|done]. intros _. split; [intros ? []%elem_of_nil|].
      right; right. intros k []%elem_of_empty.
    + destruct flag.
      * split; [|done]. intros _. split; [intros ? []%elem_of_nil | by left].
      * split; [done|]. intros [_ [?|[(? & []%elem_of_nil & _)|Hall]]]; [done|].
        apply set_choose_L in Hne as [k Hk].
        destruct (Hall k Hk) as (? & []%elem_of_nil & _).
  - rewrite fmap_cons in Hnd. apply NoDup_cons in Hnd as [Hnotin Hnd].
    assert (Hother : ∀ q, q ∈ sig → name q ≠ name p).
    { intros q Hq Heq. apply Hnotin. rewrite <- Heq. apply list_elem_of_fmap. eauto. }
    rewrite fits_all_cons, has_var_keyword_cons.
    destruct (pkind p) eqn:Hkind.
    all: first
      [ assert (Hone : takes_one p) by (unfold takes_one; rewrite Hkind; split; discriminate)
      | assert (Hnone : ¬ takes_one p) by (unfold takes_one; rewrite Hkind; tauto) ].
    all: try match goal with |- context [decide (_ ∈ _)] =>
      destruct (decide (name p ∈ names)) as [Hin | Hin] end.
    all: try match goal with |- context [has_default _] =>
      destruct (has_default p) eqn:Hdef;
      [| split; [done|]; intros [[Hfit _] _]; destruct (Hfit Hone) as [_ H2];
         specialize (H2 Hin); congruence ] end.
    + split; [done|]. intros [[Hfit _] _]. destruct (Hfit Hone) as [H1 _]. by destruct (H1 Hin).
    + rewrite (IH _ _ Hnd), (all_named_skip p) by tauto.
      assert (Hfit : fits names p) by (split; [contradiction | done]).
      intuition discriminate.
    + rewrite (IH _ _ Hnd), (fits_all_difference p sig names), (all_named_take p) by done.
      assert (Hfit : fits names p) by (split; [rewrite Hkind; discriminate | contradiction]).
      intuition discriminate.
    + rewrite (IH _ _ Hnd), (all_named_skip p) by tauto.
      assert (Hfit : fits names p) by (split; [contradiction | done]).
      intuition discriminate.
    + rewrite (IH _ _ Hnd), (all_named_skip p) by tauto. intuition discriminate.
    + rewrite (IH _ _ Hnd), (fits_all_difference p sig names), (all_named_take p) by done.
      assert (Hfit : fits names p) by (split; [rewrite Hkind; discriminate | contradiction]).
      intuition discriminate.
    + rewrite (IH _ _ Hnd), (all_named_skip p) by tauto.
      assert (Hfit : fits names p) by (split; [contradiction | done]).
      intuition discriminate.
    + rewrite (IH _ _ Hnd). intuition discriminate.
Qed.

Lemma bind_spec (sig : list Param) (names : gset string) :
  NoDup (name <$> sig) →
  bind sig names = Returned tt ↔ callable_with sig names.
Proof.
  intros Hnd. unfold bind, callable_with. rewrite bind_params_spec by done.
  intuition discriminate.
Qed.

(** ** Registration: [__setitem__], [insert], [append] *)

Ltac run_method :=
  unfold append, insert, __setitem__, __delitem__, __getitem__, clear, __len__,
    __iter__, __reversed__, __contains__, assert_, validation, get_self,
    set_receivers, lift, raise, with_receivers, mbind, mret, M_bind, M_ret; simpl.

Section Registration.
Context {V Y W : Type}.
Implicit Types (self : @Signal V Y W) (receiver : @Receiver V Y W).

Lemma append_unfold debug receiver self :
  append debug receiver self =
  match validation debug self receiver with
  | Returned _ =>
      (with_receivers self (PyList.append (_receivers self) receiver), Returned tt)
  | Raised e => (self, Raised e)
  end.
Proof.
  run_method.
  destruct debug, (iscoroutinefunction receiver); simpl; try reflexivity;
    destruct (bind _ _) as [[]|]; reflexivity.
Qed.

Lemma insert_unfold debug index receiver self :
  insert debug index receiver self =
  match validation debug self receiver with
  | Returned _ =>
      match PyList.insert (_receivers self) index receiver with
      | Returned l => (with_receivers self l, Returned tt)
      | Raised e => (self, Raised e)
      end
  | Raised e => (self, Raised e)
  end.
Proof.
  run_method.
  destruct debug, (iscoroutinefunction receiver); simpl; try reflexivity;
    try (destruct (bind _ _) as [[]|]; simpl; try reflexivity);
    destruct (PyList.insert _ _ _); reflexivity.
Qed.

Lemma setitem_unfold debug index receiver self :
  __setitem__ debug index receiver self =
  match validation debug self receiver with
  | Returned _ =>
      match PyList.setitem (_receivers self) index receiver with
      | Returned l => (with_receivers self l, Returned tt)
      | Raised e => (self, Raised e)
      end
  | Raised e => (self, Raised e)
  end.
Proof.
  run_method.
  destruct debug, (iscoroutinefunction receiver); simpl; try reflexivity;
    try (destruct (bind _ _) as [[]|]; simpl; try reflexivity);
    destruct (PyList.setitem _ _ _); reflexivity.
Qed.

Lemma delitem_unfold index self :
  __delitem__ index self =
  match PyList.position (length (_receivers self)) index with
  | Some p => (with_receivers self (delete p (_receivers self)), Returned tt)
  | None => (self, Raised IndexError)
  end.
Proof. run_method. unfold PyList.delitem. destruct (PyList.position _ _); reflexivity. Qed.

Lemma getitem_unfold index self :
  __getitem__ index self = (self, PyList.getitem (_receivers self) index).
Proof. reflexivity. Qed.

Lemma getitem_position (l : list (@Receiver V Y W)) index p :
  PyList.position (length l) index = Some p →
  ∃ x, l !! p = Some x ∧ PyList.getitem l index = Returned x.
Proof.
  intros Hp. unfold PyList.getitem. rewrite Hp.
  destruct (lookup_lt_is_Some_2 l p (position_lt _ _ _ Hp)) as [x Hx].
  exists x. by rewrite Hx.
Qed.

Lemma validation_error debug self receiver :
  validation debug self receiver = Returned tt ∨
  validation debug self receiver = Raised AssertionError ∨
  validation debug self receiver = Raised TypeError.
Proof.
  unfold validation. destruct debug; [|auto].
  destruct (iscoroutinefunction receiver); [auto|].
  destruct (bind_params_error (signature receiver) (_parameters self) false); auto.
Qed.

(** C4, as amended: in a validating build ([__debug__] true), [__setitem__],
    [insert] and [append] given a coroutine function raise
    [AssertionError] (InvalidReceiverKind) and leave the signal as it was,
    whatever the signature of the receiver. *)
Theorem coroutine_function_rejected self index receiver :
  iscoroutinefunction receiver = true →
  __setitem__ true index receiver self = (self, Raised AssertionError) ∧
  insert true index receiver self = (self, Raised AssertionError) ∧
  append true receiver self = (self, Raised AssertionError).
Proof.
  intros Hco.
  rewrite setitem_unfold, insert_unfold, append_unfold.
  unfold validation. rewrite Hco. auto.
Qed.

(** C5: in a validating build, for a receiver that is not a coroutine
    function, [__setitem__], [insert] and [append] raise [TypeError]
    (SignatureMismatch) and leave the signal as it was when the receiver
    cannot be called with one keyword argument per recognized parameter
    name, whatever the index; they register the receiver when it takes
    exactly the recognized names ([__setitem__] at an index within bounds,
    [insert] at an index that fits a [Py_ssize_t]). *)
Theorem signature_checked_when_validating self index receiver :
  iscoroutinefunction receiver = false →
  NoDup (name <$> signature receiver) →
  (¬ callable_with (signature receiver) (_parameters self) →
     __setitem__ true index receiver self = (self, Raised TypeError) ∧
     insert true index receiver self = (self, Raised TypeError) ∧
     append true receiver self = (self, Raised TypeError)) ∧
  (accepts_exactly (signature receiver) (_parameters self) →
     (∀ p, PyList.position (length (_receivers self)) index = Some p →
        __setitem__ true index receiver self =
        (with_receivers self (<[p := receiver]> (_receivers self)), Returned tt)) ∧
     (PyList.fits index →
        insert true index receiver self =
        (with_receivers self (PyList.ins1 (_receivers self) index receiver),
         Returned tt)) ∧
     append true receiver self =
       (with_receivers self (_receivers self ++ [receiver]), Returned tt)).
Proof.
  intros Hco Hnd.
  rewrite setitem_unfold, insert_unfold, append_unfold.
  unfold validation. rewrite Hco. split.
  - intros Hno.
    destruct (bind_params_error (signature receiver) (_parameters self) false)
      as [Hok | Herr].
    + exfalso. apply Hno. by apply bind_spec.
    + unfold bind. rewrite Herr. auto.
  - intros Hexact. rewrite (bind_exact _ _ Hexact). split; [|split; [|done]].
    + intros p Hp. unfold PyList.setitem. by rewrite Hp.
    + intros Hfits. by rewrite list_insert_fits.
Qed.

(** C6, as amended: in an optimized build ([__debug__] false) neither
    check is made: [append] registers any receiver, a coroutine function
    included, and so does [insert] at every index that fits a
    [Py_ssize_t]; [insert] fails only with [OverflowError], on an index
    that does not fit, and [__setitem__] only with [IndexError], on an
    index out of range. *)
Theorem no_check_when_optimized self index receiver :
  __setitem__ false index receiver self =
    match PyList.position (length (_receivers self)) index with
    | Some p => (with_receivers self (<[p := receiver]> (_receivers self)), Returned tt)
    | None => (self, Raised IndexError)
    end ∧
  (PyList.fits index →
     insert false index receiver self =
     (with_receivers self (PyList.ins1 (_receivers self) index receiver),
      Returned tt)) ∧
  (¬ PyList.fits index →
     insert false index receiver self = (self, Raised OverflowError)) ∧
  append false receiver self =
    (with_receivers self (_receivers self ++ [receiver]), Returned tt).
Proof.
  rewrite setitem_unfold, insert_unfold, append_unfold. simpl.
  split; [unfold PyList.setitem; by destruct (PyList.position _ _)|].
  split; [intros Hfits; by rewrite list_insert_fits|].
  split; [intros Hno; by rewrite list_insert_overflow | done].
Qed.

End Registration.

(** ** The receivers as a sequence *)

Section Sequence.
Context {V Y W : Type}.
Implicit Types (self : @Signal V Y W) (receiver : @Receiver V Y W).

(** C9: at an index within bounds and with a receiver that passes the
    checks of registration, [__setitem__] succeeds, [__getitem__] at the
    same index then returns that receiver, and [__getitem__] at every index
    that designates another position answers as before. *)
Theorem getitem_after_setitem debug self index receiver :
  validation debug self receiver = Returned tt →
  - Z.of_nat (length (_receivers self)) ≤ index < Z.of_nat (length (_receivers self)) →
  ∃ self',
    __setitem__ debug index receiver self = (self', Returned tt) ∧
    __getitem__ index self' = (self', Returned receiver) ∧
    length (_receivers self') = length (_receivers self) ∧
    ∀ j, PyList.position (length (_receivers self)) j ≠
         PyList.position (length (_receivers self)) index →
         snd (__getitem__ j self') = snd (__getitem__ j self).
Proof.
  intros Hvalid Hrange.
  destruct (PyList.position (length (_receivers self)) index) as [p|] eqn:Hp;
    [| apply position_None in Hp; lia].
  pose proof (position_lt _ _ _ Hp) as Hlt.
  exists (with_receivers self (<[p := receiver]> (_receivers self))).
  rewrite setitem_unfold, Hvalid. unfold PyList.setitem. rewrite Hp.
  split; [reflexivity|]. rewrite !getitem_unfold. simpl.
  unfold PyList.getitem. rewrite !length_insert, Hp.
  rewrite list_lookup_insert_eq by exact Hlt.
  split; [reflexivity|]. split; [reflexivity|].
  intros j Hj. destruct (PyList.position (length (_receivers self)) j) as [q|]; [|reflexivity].
  rewrite list_lookup_insert_ne by congruence. reflexivity.
Qed.

(** C10, as amended: [insert] accepts every integer index that fits a
    [Py_ssize_t].  With a receiver that passes the checks of registration
    it succeeds there and the sequence grows by one: an index past the end
    inserts at the end, a negative index counts from the end and stops at
    the start.  At an index that does not fit it raises [OverflowError] and
    registers nothing.  [__getitem__] and [__delitem__] raise [IndexError]
    at the indices out of bounds. *)
Theorem insert_never_out_of_range debug self index receiver :
  validation debug self receiver = Returned tt →
  (PyList.fits index →
   ∃ l',
    insert debug index receiver self = (with_receivers self l', Returned tt) ∧
    length l' = S (length (_receivers self)) ∧
    (Z.of_nat (length (_receivers self)) ≤ index → l' = _receivers self ++ [receiver]) ∧
    (0 ≤ index ≤ Z.of_nat (length (_receivers self)) →
       l' = take (Z.to_nat index) (_receivers self) ++
            receiver :: drop (Z.to_nat index) (_receivers self)) ∧
    (- Z.of_nat (length (_receivers self)) ≤ index < 0 →
       l' = take (Z.to_nat (Z.of_nat (length (_receivers self)) + index)) (_receivers self) ++
            receiver ::
            drop (Z.to_nat (Z.of_nat (length (_receivers self)) + index)) (_receivers self)) ∧
    (index < - Z.of_nat (length (_receivers self)) → l' = receiver :: _receivers self)) ∧
  (¬ PyList.fits index →
     insert debug index receiver self = (self, Raised OverflowError)) ∧
  (index < - Z.of_nat (length (_receivers self)) ∨
   Z.of_nat (length (_receivers self)) ≤ index →
     __getitem__ index self = (self, Raised IndexError) ∧
     __delitem__ index self = (self, Raised IndexError)).
Proof.
  intros Hvalid. rewrite insert_unfold, Hvalid. split; [|split].
  - intros Hfits. exists (PyList.ins1 (_receivers self) index receiver).
    rewrite list_insert_fits by done. split; [reflexivity|].
    split; [apply length_list_insert|].
    destruct (insert_position_cases (length (_receivers self)) index)
      as (Hend & Hmid & Hneg & Hstart).
    unfold PyList.ins1. repeat split.
    + intros H. rewrite (Hend H). by rewrite take_ge, drop_ge by lia.
    + intros H. by rewrite (Hmid H).
    + intros H. by rewrite (Hneg H).
    + intros H. by rewrite (Hstart H).
  - intros Hno. by rewrite list_insert_overflow.
  - intros H. split.
    + rewrite getitem_unfold. unfold PyList.getitem.
      by rewrite (proj2 (position_None _ _) H).
    + rewrite delitem_unfold. by rewrite (proj2 (position_None _ _) H).
Qed.

End Sequence.

(** ** Sequences of operations *)

Section Operations.
Context {V Y W : Type}.
Implicit Types (self s : @Signal V Y W) (receiver : @Receiver V Y W).
Implicit Types (op : @operation V Y W) (w : W).

Lemma method_unfold {A : Type} (m : M A) self w self' w' ok :
  method m self w = (self', w', ok) →
  w' = w ∧ self' = fst (m self) ∧ ok = succeeded (snd (m self)).
Proof. unfold method. destruct (m self). intros [= <- <- <-]. auto. Qed.

Lemma perform_parameters debug op self w self' w' ok :
  perform debug op self w = (self', w', ok) →
  _parameters self' = _parameters self.
Proof.
  destruct op; simpl.
  1-5, 7-11: intros (_ & -> & _)%method_unfold.
  - rewrite append_unfold. by destruct (validation _ _ _).
  - rewrite insert_unfold.
    destruct (validation _ _ _); [destruct (PyList.insert _ _ _)|]; done.
  - rewrite setitem_unfold.
    destruct (validation _ _ _); [destruct (PyList.setitem _ _ _)|]; done.
  - rewrite delitem_unfold. by destruct (PyList.position _ _).
  - done.
  - done.
  - done.
  - done.
  - done.
  - done.
  - destruct (send self kwargs w) as [[? ?] ?]. by intros [= <- _ _].
Qed.

Lemma perform_sequence debug op self w self' w' ok :
  sequence_only op →
  perform debug op self w = (self', w', ok) →
  _receivers self' = replay_entry (_receivers self) (op, ok) ∧
  (length (_receivers self') + (if is_deletion (op, ok) then 1 else 0) =
   length (_receivers self) + (if is_insertion (op, ok) then 1 else 0))%nat.
Proof.
  destruct op; simpl; try contradiction; intros _ (_ & -> & ->)%method_unfold.
  - rewrite append_unfold. destruct (validation _ _ _); simpl; [|split; [done | lia]].
    unfold PyList.append. rewrite length_app. simpl. split; [done | lia].
  - rewrite insert_unfold. destruct (validation _ _ _); simpl; [|split; [done | lia]].
    destruct (list_insert_cases (_receivers self) index receiver)
      as [[_ ->] | [_ ->]]; simpl; [|split; [done | lia]].
    rewrite length_list_insert. split; [done | lia].
  - rewrite delitem_unfold.
    destruct (PyList.position _ _) as [p|] eqn:Hp; simpl; [|split; [done | lia]].
    rewrite ?Hp. split; [done|].
    pose proof (position_lt _ _ _ Hp).
    rewrite length_delete by (by apply lookup_lt_is_Some_2). lia.
Qed.

Lemma insertions_cons (entry : @operation V Y W * bool) journal :
  insertions (entry :: journal) =
  ((if is_insertion entry then 1 else 0) + insertions journal)%nat.
Proof.
  unfold insertions. rewrite filter_cons.
  destruct (decide _) as [H|H]; destruct (is_insertion entry); simpl; congruence.
Qed.

Lemma deletions_cons (entry : @operation V Y W * bool) journal :
  deletions (entry :: journal) =
  ((if is_deletion entry then 1 else 0) + deletions journal)%nat.
Proof.
  unfold deletions. rewrite filter_cons.
  destruct (decide _) as [H|H]; destruct (is_deletion entry); simpl; congruence.
Qed.

Lemma run_sequence debug ops self w self' w' journal :
  Forall sequence_only ops →
  run debug ops self w = (self', w', journal) →
  _receivers self' = replay journal (_receivers self) ∧
  (length (_receivers self') + deletions journal =
   length (_receivers self) + insertions journal)%nat.
Proof.
  intros Hops. revert self w self' w' journal.
  induction Hops as [|op ops Hop Hops IH]; intros self w self' w' journal; simpl.
  - intros [= <- <- <-]. split; [done | reflexivity].
  - destruct (perform debug op self w) as [[self1 w1] ok] eqn:Hperform.
    destruct (run debug ops self1 w1) as [[self2 w2] journal2] eqn:Hrun.
    intros [= <- <- <-].
    destruct (perform_sequence _ _ _ _ _ _ _ Hop Hperform) as [Hl1 Hn1].
    destruct (IH _ _ _ _ _ Hrun) as [Hl2 Hn2].
    rewrite insertions_cons, deletions_cons. unfold replay in *.
    split; [by rewrite Hl2, Hl1 | lia].
Qed.

Lemma list_insert_lookup (l : list (@Receiver V Y W)) index receiver :
  let p := PyList.insert_position (length l) index in
  PyList.ins1 l index receiver !! p = Some receiver ∧
  (∀ j, (j < p)%nat → PyList.ins1 l index receiver !! j = l !! j) ∧
  (∀ j, (p ≤ j)%nat → PyList.ins1 l index receiver !! S j = l !! j).
Proof.
  intros p. pose proof (insert_position_le (length l) index) as Hle.
  fold p in Hle. unfold PyList.ins1. fold p.
  assert (Hlen : length (take p l) = p) by (by apply length_take_le).
  repeat split.
  - by apply list_lookup_middle.
  - intros j Hj. rewrite lookup_app_l by lia. by apply lookup_take_lt.
  - intros j Hj. rewrite lookup_app_r by lia. rewrite Hlen.
    replace (S j - p)%nat with (S (j - p)) by lia. simpl.
    rewrite lookup_drop. f_equal. lia.
Qed.

(** C7: along any sequence of [append], [insert] and [__delitem__] calls,
    the length is the initial length plus the insertions that returned
    minus the deletions that returned, and iteration yields the list these
    operations build in order: [__delitem__] at a position removes the
    receiver there and moves every later receiver down by one, [insert]
    (at an index that fits a [Py_ssize_t]; it raises otherwise, and is
    then not counted) puts the receiver before its position and moves the
    later receivers up by one, [append] puts it at the end. *)
Theorem length_and_order_of_sequence debug ops self w self' w' journal :
  Forall sequence_only ops →
  run debug ops self w = (self', w', journal) →
  __len__ self' =
    (self', Returned (length (_receivers self) + insertions journal
                      - deletions journal)%nat) ∧
  __iter__ self' = (self', Returned (replay journal (_receivers self))) ∧
  (∀ s index p,
     PyList.position (length (_receivers s)) index = Some p →
     ∃ l', __delitem__ index s = (with_receivers s l', Returned tt) ∧
       (∀ j, (j < p)%nat → l' !! j = _receivers s !! j) ∧
       (∀ j, (p ≤ j)%nat → l' !! j = _receivers s !! S j)) ∧
  (∀ s index receiver,
     validation debug s receiver = Returned tt →
     PyList.fits index →
     ∃ l', insert debug index receiver s = (with_receivers s l', Returned tt) ∧
       let p := PyList.insert_position (length (_receivers s)) index in
       (0 ≤ index ≤ Z.of_nat (length (_receivers s)) → p = Z.to_nat index) ∧
       l' !! p = Some receiver ∧
       (∀ j, (j < p)%nat → l' !! j = _receivers s !! j) ∧
       (∀ j, (p ≤ j)%nat → l' !! S j = _receivers s !! j)) ∧
  (∀ s receiver,
     validation debug s receiver = Returned tt →
     append debug receiver s = (with_receivers s (_receivers s ++ [receiver]), Returned tt)).
Proof.
  intros Hops Hrun.
  destruct (run_sequence _ _ _ _ _ _ _ Hops Hrun) as [Hl Hn].
  split; [|split; [|split; [|split]]].
  - unfold __len__, get_self, mbind, mret, M_bind, M_ret. simpl. do 2 f_equal. lia.
  - unfold __iter__, get_self, mbind, mret, M_bind, M_ret. simpl. by rewrite Hl.
  - intros s index p Hp. exists (delete p (_receivers s)).
    rewrite delitem_unfold, Hp. split; [done|]. split; intros j Hj.
    + by apply list_lookup_delete_lt.
    + by apply list_lookup_delete_ge.
  - intros s index receiver Hvalid Hfits.
    exists (PyList.ins1 (_receivers s) index receiver).
    rewrite insert_unfold, Hvalid, list_insert_fits by done.
    split; [done|]. intros p.
    split; [apply insert_position_cases|]. apply list_insert_lookup.
  - intros s receiver Hvalid. by rewrite append_unfold, Hvalid.
Qed.

(** C8: the parameter set is the set of the names given to [__init__],
    whatever operations follow. *)
Theorem parameters_never_change debug parameters ops w self' w' journal :
  run debug ops (__init__ parameters) w = (self', w', journal) →
  _parameters self' = list_to_set parameters ∧
  ∀ x, x ∈ _parameters self' ↔ x ∈ parameters.
Proof.
  assert (Hinv : ∀ ops self w self' w' journal,
    run debug ops self w = (self', w', journal) →
    _parameters self' = _parameters self).
  { clear. induction ops as [|op ops IH]; intros self w self' w' journal; simpl.
    - by intros [= <- _ _].
    - destruct (perform debug op self w) as [[self1 w1] ok] eqn:Hperform.
      destruct (run debug ops self1 w1) as [[self2 w2] journal2] eqn:Hrun.
      intros [= <- _ _]. rewrite (IH _ _ _ _ _ Hrun).
      by apply perform_parameters in Hperform. }
  intros Hrun. rewrite (Hinv _ _ _ _ _ _ Hrun). split; [done|].
  intros x. simpl. apply elem_of_list_to_set.
Qed.

End Operations.

(** ** Dispatch *)

Ltac run_dispatch :=
  unfold dispatch, yield_from, tell, throw, mbind, mret, D_bind, D_ret; simpl.

Section Dispatch.
Context {V Y W : Type}.
Implicit Types (self : @Signal V Y W) (receiver : @Receiver V Y W).
Implicit Types (kwargs : gmap string V) (w : W) (it : @iterator Y W).
Implicit Types (tr : list (@event V Y)) (ys : list Y) (yss : list (list Y)).
Implicit Types (receivers : list (@Receiver V Y W)).

Lemma call_trace receiver kwargs w w' tr o :
  call receiver kwargs w = (w', tr, o) → tr = [].
Proof.
  unfold call. destruct (body _ _ _). by intros [= _ <- _].
Qed.

Lemma exhaust_trace it : ∀ w, ∃ ys, snd (fst (exhaust it w)) = (Suspend <$> ys : list (@event V Y)).
Proof.
  induction it as [| e | y rest IH | code IH] using iterator_induction; intros w; simpl.
  - by exists [].
  - by exists [].
  - destruct (IH w) as [ys Hys]. exists (y :: ys).
    unfold mbind, D_bind, tell. simpl.
    destruct (exhaust rest w) as [[w' tr] o]. simpl in *. by rewrite Hys.
  - specialize (IH w). destruct (code w) as [w' it']. apply IH.
Qed.

Lemma dispatch_unfold receiver kwargs w :
  dispatch receiver kwargs w =
  match call receiver kwargs w with
  | (w1, _, Raised e) => (w1, [Invoke (rid receiver) kwargs], Raised e)
  | (w1, _, Returned NotIterable) =>
      (w1, [Invoke (rid receiver) kwargs], Raised TypeError)
  | (w1, _, Returned (Iterable it)) =>
      match exhaust it w1 with
      | (w2, tr, Returned _) =>
          (w2, Invoke (rid receiver) kwargs :: tr ++ [Complete (rid receiver)],
           Returned tt)
      | (w2, tr, Raised e) => (w2, Invoke (rid receiver) kwargs :: tr, Raised e)
      end
  end.
Proof.
  run_dispatch.
  destruct (call receiver kwargs w) as [[w1 tr1] [[|it]|e]] eqn:Hcall;
    rewrite (call_trace _ _ _ _ _ _ Hcall); simpl; try reflexivity.
  destruct (exhaust it w1) as [[w2 tr2] [[]|e]]; reflexivity.
Qed.

Lemma dispatch_completes receiver kwargs w w' ys :
  completes receiver kwargs w w' ys →
  dispatch receiver kwargs w = (w', turn kwargs receiver ys, Returned tt).
Proof.
  intros (w1 & it & Hcall & Hrun). by rewrite dispatch_unfold, Hcall, Hrun.
Qed.

Lemma dispatch_returned receiver kwargs w w' tr :
  dispatch receiver kwargs w = (w', tr, Returned tt) →
  ∃ ys, completes receiver kwargs w w' ys ∧ tr = turn kwargs receiver ys.
Proof.
  rewrite dispatch_unfold.
  destruct (call receiver kwargs w) as [[w1 tr1] [[|it]|e]] eqn:Hcall; try done.
  pose proof (call_trace _ _ _ _ _ _ Hcall) as ->.
  destruct (exhaust_trace it w1) as [ys Hys].
  destruct (exhaust it w1) as [[w2 tr2] [[]|e]] eqn:Hrun; [|done].
  simpl in Hys. subst tr2. intros [= <- <-].
  exists ys. split; [|done]. by exists w1, it.
Qed.

Lemma dispatch_raises receiver kwargs w w' tr e :
  raises receiver kwargs w w' tr e →
  dispatch receiver kwargs w = (w', Invoke (rid receiver) kwargs :: tr, Raised e).
Proof.
  rewrite dispatch_unfold.
  intros [[Hcall ->] | (w1 & it & Hcall & Hrun)]; by rewrite Hcall, ?Hrun.
Qed.

Lemma send_loop_cons receiver receivers kwargs w :
  send_loop (receiver :: receivers) kwargs w =
  match dispatch receiver kwargs w with
  | (w1, tr, Returned _) =>
      let '(w2, tr', o) := send_loop receivers kwargs w1 in (w2, tr ++ tr', o)
  | (w1, tr, Raised e) => (w1, tr, Raised e)
  end.
Proof. reflexivity. Qed.

Lemma send_loop_complete receivers kwargs : ∀ w w' yss,
  all_complete receivers kwargs w w' yss →
  send_loop receivers kwargs w =
  (w', concat (zip_with (turn kwargs) receivers yss), Returned tt).
Proof.
  induction receivers as [|receiver receivers IH]; intros w w' [|ys yss]; simpl; try done.
  - by intros ->.
  - intros (w1 & Hr & Hrest).
    change (send_loop (receiver :: receivers) kwargs w = 
      (w', turn kwargs receiver ys ++ concat (zip_with (turn kwargs) receivers yss), Returned tt)).
    rewrite send_loop_cons, (dispatch_completes _ _ _ _ _ Hr), (IH _ _ _ Hrest).
    reflexivity.
Qed.

Lemma send_loop_returned receivers kwargs : ∀ w w' tr,
  send_loop receivers kwargs w = (w', tr, Returned tt) →
  ∃ yss, all_complete receivers kwargs w w' yss ∧
         tr = concat (zip_with (turn kwargs) receivers yss).
Proof.
  induction receivers as [|receiver receivers IH]; intros w w' tr.
  - intros [= <- <-]. by exists [].
  - rewrite send_loop_cons.
    destruct (dispatch receiver kwargs w) as [[w1 tr1] [[]|e]] eqn:Hd; [|done].
    destruct (send_loop receivers kwargs w1) as [[w2 tr2] o] eqn:Hs.
    intros [= <- <- ->].
    apply dispatch_returned in Hd as (ys & Hr & ->).
    apply IH in Hs as (yss & Hrest & ->).
    exists (ys :: yss). split; [by exists w1 | done].
Qed.

Lemma invocations_app tr1 tr2 :
  invocations (tr1 ++ tr2) = invocations tr1 ++ invocations tr2.
Proof. unfold invocations. apply omap_app. Qed.

Lemma invocations_suspend ys :
  invocations (V:=V) (Suspend <$> ys) = [].
Proof. induction ys; [done | by simpl]. Qed.

Lemma invocations_turn kwargs receiver ys :
  invocations (turn kwargs receiver ys) = [(rid receiver, kwargs)].
Proof.
  unfold turn. change (Invoke (rid receiver) kwargs :: ?l) with ([Invoke (rid receiver) kwargs] ++ l).
  rewrite !invocations_app, invocations_suspend. reflexivity.
Qed.

Lemma invocations_turns kwargs receivers : ∀ yss,
  length yss = length receivers →
  invocations (concat (zip_with (turn kwargs) receivers yss)) =
  (fun r => (rid r, kwargs)) <$> receivers.
Proof.
  induction receivers as [|receiver receivers IH]; intros [|ys yss] Hlen; try done.
  injection Hlen as Hlen. cbn [zip_with concat].
  rewrite invocations_app, invocations_turn, (IH _ Hlen). reflexivity.
Qed.

Lemma all_complete_length receivers kwargs : ∀ w w' yss,
  all_complete receivers kwargs w w' yss → length yss = length receivers.
Proof.
  induction receivers as [|receiver receivers IH]; intros w w' [|ys yss]; simpl; try done.
  intros (w1 & _ & Hrest). f_equal. eauto.
Qed.

Lemma completions_app tr1 tr2 :
  completions (tr1 ++ tr2) = completions tr1 ++ completions tr2.
Proof. unfold completions. apply omap_app. Qed.

Lemma completions_suspend ys : completions (V:=V) (Suspend <$> ys) = [].
Proof. induction ys; [done | by simpl]. Qed.

Lemma completions_turns kwargs receivers : ∀ yss,
  length yss = length receivers →
  completions (concat (zip_with (turn kwargs) receivers yss)) = rid <$> receivers.
Proof.
  induction receivers as [|receiver receivers IH]; intros [|ys yss] Hlen; try done.
  injection Hlen as Hlen. cbn [zip_with concat]. unfold turn at 1.
  change (Invoke (rid receiver) kwargs :: ?l) with ([Invoke (rid receiver) kwargs] ++ l).
  rewrite !completions_app, completions_suspend, (IH _ Hlen). reflexivity.
Qed.

Lemma raises_trace receiver kwargs w w' tr e :
  raises receiver kwargs w w' tr e → invocations tr = [].
Proof.
  intros [[_ ->] | (w1 & it & _ & Hrun)]; [done|].
  destruct (exhaust_trace it w1) as [ys Hys]. rewrite Hrun in Hys. simpl in Hys.
  subst tr. apply invocations_suspend.
Qed.

Lemma send_loop_abort receiver after kwargs w' tr e : ∀ before w w1 yss,
  all_complete before kwargs w w1 yss →
  dispatch receiver kwargs w1 = (w', tr, Raised e) →
  send_loop (before ++ receiver :: after) kwargs w =
  (w', concat (zip_with (turn kwargs) before yss) ++ tr, Raised e).
Proof.
  induction before as [|first before IH]; intros w w1 [|ys yss]; simpl; try done.
  - intros -> Hd. change (send_loop (receiver :: after) kwargs w = (w', tr, Raised e)).
    by rewrite send_loop_cons, Hd.
  - intros (w2 & Hfirst & Hrest) Hd.
    change (send_loop (first :: before ++ receiver :: after) kwargs w =
      (w', (turn kwargs first ys ++ concat (zip_with (turn kwargs) before yss)) ++ tr,
       Raised e)).
    rewrite send_loop_cons, (dispatch_completes _ _ _ _ _ Hfirst),
      (IH _ _ _ Hrest Hd), <- app_assoc.
    reflexivity.
Qed.

Lemma send_not_iterable receiver receivers kwargs w w1 :
  call receiver kwargs w = (w1, [], Returned NotIterable) →
  send_loop (receiver :: receivers) kwargs w =
  (w1, [Invoke (rid receiver) kwargs], Raised TypeError).
Proof. intros Hcall. by rewrite send_loop_cons, dispatch_unfold, Hcall. Qed.

Lemma dispatch_invocations receiver kwargs w :
  invocations (snd (fst (dispatch receiver kwargs w))) = [(rid receiver, kwargs)].
Proof.
  rewrite dispatch_unfold.
  destruct (call receiver kwargs w) as [[w1 tr1] [[|it]|e]]; try reflexivity.
  destruct (exhaust_trace it w1) as [ys Hys].
  destruct (exhaust it w1) as [[w2 tr2] [[]|e]]; simpl in *; subst tr2.
  - by rewrite invocations_app, invocations_suspend.
  - by rewrite invocations_suspend.
Qed.

Lemma send_loop_invocations_prefix receivers kwargs : ∀ w,
  invocations (snd (fst (send_loop receivers kwargs w))) `prefix_of`
  ((fun r => (rid r, kwargs)) <$> receivers).
Proof.
  induction receivers as [|receiver receivers IH]; intros w; [done|].
  rewrite send_loop_cons, fmap_cons.
  pose proof (dispatch_invocations receiver kwargs w) as Hd.
  destruct (dispatch receiver kwargs w) as [[w1 tr1] [[]|e]]; simpl in Hd.
  - specialize (IH w1).
    destruct (send_loop receivers kwargs w1) as [[w2 tr2] o]. simpl in *.
    rewrite invocations_app, Hd. simpl. by apply prefix_cons.
  - simpl. rewrite Hd. apply prefix_cons, prefix_nil.
Qed.

(** X3: when the receivers, dispatched in registration order, all complete,
    [send] returns, and its trace is one turn per receiver, in registration
    order: the call of the receiver with the keyword arguments given to
    [send], what the receiver yields, the end of the receiver; so the call
    of a receiver comes after the end of the one before.  Conversely
    [send] returns only when every receiver has completed, and in every
    run the calls it makes are an initial part of that list of calls. *)
Theorem send_invokes_each_receiver_in_order self kwargs w w' yss :
  all_complete (_receivers self) kwargs w w' yss →
  send self kwargs w =
    (w', concat (zip_with (turn kwargs) (_receivers self) yss), Returned tt) ∧
  invocations (concat (zip_with (turn kwargs) (_receivers self) yss)) =
    (fun r => (rid r, kwargs)) <$> _receivers self ∧
  completions (concat (zip_with (turn kwargs) (_receivers self) yss)) =
    rid <$> _receivers self ∧
  (∀ w0 w1 tr,
     send self kwargs w0 = (w1, tr, Returned tt) →
     ∃ yss0, all_complete (_receivers self) kwargs w0 w1 yss0 ∧
             tr = concat (zip_with (turn kwargs) (_receivers self) yss0)) ∧
  (∀ w0,
     invocations (snd (fst (send self kwargs w0))) `prefix_of`
     ((fun r => (rid r, kwargs)) <$> _receivers self)).
Proof.
  intros Hall. pose proof (all_complete_length _ _ _ _ _ Hall) as Hlen.
  split; [by apply send_loop_complete|].
  split; [by apply invocations_turns|].
  split; [by apply completions_turns|].
  split; [intros w0 w1 tr; apply send_loop_returned|].
  intros w0. apply send_loop_invocations_prefix.
Qed.

(** C2: when the receivers before one complete and that one raises [e], in
    its call or while what it returned is iterated, [send] raises [e]; the
    state is the one the failing receiver left, reached from the state the
    earlier receivers left; the trace ends with the failing receiver, and
    no later receiver is called. *)
Theorem failure_aborts_dispatch self kwargs before receiver after w w1 yss w' tr e :
  _receivers self = before ++ receiver :: after →
  all_complete before kwargs w w1 yss →
  raises receiver kwargs w1 w' tr e →
  send self kwargs w =
    (w', concat (zip_with (turn kwargs) before yss) ++
         Invoke (rid receiver) kwargs :: tr, Raised e) ∧
  send_loop before kwargs w =
    (w1, concat (zip_with (turn kwargs) before yss), Returned tt) ∧
  invocations (concat (zip_with (turn kwargs) before yss) ++
               Invoke (rid receiver) kwargs :: tr) =
    (fun r => (rid r, kwargs)) <$> (before ++ [receiver]).
Proof.
  intros Hself Hbefore Hraises. unfold send. rewrite Hself.
  split; [|split].
  - apply (send_loop_abort _ _ _ _ _ _ _ _ _ _ Hbefore).
    by apply dispatch_raises.
  - by apply send_loop_complete.
  - rewrite invocations_app, fmap_app.
    rewrite invocations_turns by (by eapply all_complete_length).
    f_equal. simpl. by rewrite (raises_trace _ _ _ _ _ _ Hraises).
Qed.

End Dispatch.

(** ** The properties on concrete receivers *)

Section Concrete.
Import Examples.

Lemma send_invokes_each_receiver_in_order_witness :
  send (with_receivers new_signal [gen 1; gen 2; gen 3]) arguments [] =
  ([1; 1; 2; 2; 3; 3]%nat,
   [Invoke 1 arguments; Suspend 1%nat; Complete 1;
    Invoke 2 arguments; Suspend 2%nat; Complete 2;
    Invoke 3 arguments; Suspend 3%nat; Complete 3],
   Returned tt).
Proof.
  apply (send_invokes_each_receiver_in_order
           (with_receivers new_signal [gen 1; gen 2; gen 3]) arguments
           [] [1; 1; 2; 2; 3; 3]%nat [[1]; [2]; [3]]%nat).
  simpl. unfold completes.
  repeat (eexists; split; [eexists _, _; split; reflexivity|]). reflexivity.
Defined.

Lemma failure_aborts_dispatch_witness :
  send (with_receivers new_signal [gen 1; failing 2; gen 3]) arguments [] =
  ([1; 1; 2]%nat,
   [Invoke 1 arguments; Suspend 1%nat; Complete 1; Invoke 2 arguments],
   Raised (Exception "boom")).
Proof.
  apply (failure_aborts_dispatch
           (with_receivers new_signal [gen 1; failing 2; gen 3]) arguments
           [gen 1] (failing 2) [gen 3] [] [1; 1]%nat [[1]]%nat [1; 1; 2]%nat []
           (Exception "boom")).
  - reflexivity.
  - simpl. eexists. split; [|reflexivity]. eexists _, _. split; reflexivity.
  - left. split; reflexivity.
Defined.

(** C1: [append] registers the plain functions [plain 1], [plain 2] and
    [plain 3] in a validating build; [send] then calls the first one only,
    where the registration order has three calls to make, and raises
    [TypeError] instead of returning.  The defect is the one of C3: the
    [None] a plain function returns cannot be delegated to. *)
Theorem plain_receivers_are_not_each_invoked :
  run true [Append (plain 1); Append (plain 2); Append (plain 3)] new_signal [] =
    (with_receivers new_signal [plain 1; plain 2; plain 3], [],
     [(Append (plain 1), true); (Append (plain 2), true); (Append (plain 3), true)]) ∧
  (fun r => (rid r, arguments)) <$> [plain 1; plain 2; plain 3] =
    [(1%nat, arguments); (2%nat, arguments); (3%nat, arguments)] ∧
  invocations
    (snd (fst (send (with_receivers new_signal [plain 1; plain 2; plain 3])
                 arguments []))) = [(1%nat, arguments)] ∧
  completions
    (snd (fst (send (with_receivers new_signal [plain 1; plain 2; plain 3])
                 arguments []))) = [] ∧
  snd (send (with_receivers new_signal [plain 1; plain 2; plain 3]) arguments []) =
    Raised TypeError ∧
  fst (fst (send (with_receivers new_signal [plain 1; plain 2; plain 3])
              arguments [])) = [1]%nat.
Proof. repeat split; reflexivity. Qed.

(** C3: [append] accepts the plain functions [plain 1] and [plain 2] in a
    validating build, and [send] then calls the first, raises [TypeError] on
    the [None] it returns and never calls the second. *)
Theorem plain_receiver_breaks_send :
  run true [Append (plain 1); Append (plain 2)] new_signal [] =
    (with_receivers new_signal [plain 1; plain 2], [],
     [(Append (plain 1), true); (Append (plain 2), true)]) ∧
  send (with_receivers new_signal [plain 1; plain 2]) arguments [] =
    ([1]%nat, [Invoke 1 arguments], Raised TypeError).
Proof. split; reflexivity. Qed.

Lemma coroutine_function_rejected_witness :
  iscoroutinefunction (coro 1) = true ∧
  append true (coro 1) new_signal = (new_signal, Raised AssertionError).
Proof.
  split; [reflexivity|].
  apply (coroutine_function_rejected new_signal 0 (coro 1)). reflexivity.
Defined.

(* against C4 as stated: in an optimized build [append] registers a
   coroutine function *)
Lemma coroutine_function_registered_when_optimized :
  iscoroutinefunction (coro 1) = true ∧
  append false (coro 1) new_signal =
    (with_receivers new_signal [coro 1], Returned tt) ∧
  snd (append false (coro 1) new_signal) ≠ Raised AssertionError.
Proof. split; [reflexivity|]. split; [reflexivity | discriminate]. Qed.

Lemma signature_checked_when_validating_witness :
  (__setitem__ true 0 (short 1) (with_receivers new_signal [gen 1]) =
     (with_receivers new_signal [gen 1], Raised TypeError) ∧
   insert true 0 (short 1) (with_receivers new_signal [gen 1]) =
     (with_receivers new_signal [gen 1], Raised TypeError) ∧
   append true (short 1) (with_receivers new_signal [gen 1]) =
     (with_receivers new_signal [gen 1], Raised TypeError)) ∧
  (__setitem__ true 0 (plain 2) (with_receivers new_signal [gen 1]) =
     (with_receivers new_signal [plain 2], Returned tt) ∧
   insert true 0 (plain 2) (with_receivers new_signal [gen 1]) =
     (with_receivers new_signal [plain 2; gen 1], Returned tt) ∧
   append true (plain 2) (with_receivers new_signal [gen 1]) =
     (with_receivers new_signal [gen 1; plain 2], Returned tt)).
Proof.
  split.
  - apply (signature_checked_when_validating (with_receivers new_signal [gen 1])
             0 (short 1)); [reflexivity | compute_done |].
    intros Hc. apply bind_spec in Hc; [|compute_done].
    vm_compute in Hc. discriminate Hc.
  - destruct (signature_checked_when_validating (with_receivers new_signal [gen 1])
                0 (plain 2)) as [_ Hok]; [reflexivity | compute_done |].
    destruct Hok as (Hset & Hins & Happ).
    { split; [compute_done|]. split; [reflexivity|].
      repeat (constructor; [by left|]). constructor. }
    split; [exact (Hset 0%nat eq_refl)|]. split; [|exact Happ].
    apply Hins. unfold PyList.fits. split; discriminate.
Defined.

(* against C6 as stated: in an optimized build [insert] and [__setitem__]
   register a coroutine function *)
Lemma coroutine_function_inserted_when_optimized :
  iscoroutinefunction (coro 1) = true ∧
  insert false 0 (coro 1) new_signal =
    (with_receivers new_signal [coro 1], Returned tt) ∧
  __setitem__ false 0 (coro 2) (with_receivers new_signal [coro 1]) =
    (with_receivers new_signal [coro 2], Returned tt) ∧
  snd (insert false 0 (coro 1) new_signal) ≠ Raised AssertionError.
Proof. repeat (split; [reflexivity|]). discriminate. Qed.

Lemma no_check_when_optimized_witness :
  insert false 1 (coro 2) (with_receivers new_signal [coro 1]) =
    (with_receivers new_signal [coro 1; coro 2], Returned tt) ∧
  insert false (2 ^ 63) (coro 2) (with_receivers new_signal [coro 1]) =
    (with_receivers new_signal [coro 1], Raised OverflowError).
Proof.
  split.
  - destruct (no_check_when_optimized (with_receivers new_signal [coro 1]) 1 (coro 2))
      as (_ & Hfits & _).
    apply Hfits. unfold PyList.fits. split; discriminate.
  - destruct (no_check_when_optimized (with_receivers new_signal [coro 1]) (2 ^ 63)
                (coro 2)) as (_ & _ & Hover & _).
    apply Hover. unfold PyList.fits. intros [_ Hmax]. by apply Hmax.
Defined.

Lemma length_and_order_of_sequence_witness :
  ∃ self' w' journal,
    run true ops0 new_signal [] = (self', w', journal) ∧
    insertions journal = 3%nat ∧ deletions journal = 1%nat ∧
    __len__ self' = (self', Returned 2%nat) ∧
    rid <$> _receivers self' = [3; 2]%nat.
Proof.
  eexists _, _, _. split; [reflexivity|]. do 2 (split; [reflexivity|]).
  split; [|reflexivity].
  refine (proj1 (length_and_order_of_sequence true ops0 new_signal [] _ _ _ _ eq_refl)).
  unfold ops0. repeat (constructor; [exact I|]). constructor.
Defined.

Lemma parameters_never_change_witness :
  ∃ self' w' journal,
    run true ops1 (__init__ ["name"; "value"; "name"]%string) [] = (self', w', journal) ∧
    ∀ x, x ∈ _parameters self' ↔ x ∈ ["name"; "value"; "name"]%string.
Proof.
  eexists _, _, _. split; [reflexivity|].
  refine (proj2 (parameters_never_change true ["name"; "value"; "name"]%string
                   ops1 [] _ _ _ eq_refl)).
Defined.

Lemma getitem_after_setitem_witness :
  ∃ self',
    __setitem__ true (-1) (gen 3) (with_receivers new_signal [gen 1; gen 2]) =
      (self', Returned tt) ∧
    __getitem__ (-1) self' = (self', Returned (gen 3)).
Proof.
  destruct (getitem_after_setitem true (with_receivers new_signal [gen 1; gen 2])
              (-1) (gen 3)) as (self' & Hset & Hget & _).
  - reflexivity.
  - simpl. lia.
  - exists self'. split; assumption.
Defined.

(* against C10 as stated: an index that does not fit a [Py_ssize_t] makes
   [insert] raise, with a receiver that passes the checks *)
Lemma insert_overflows_past_ssize_t :
  validation true (with_receivers new_signal [gen 1; gen 2]) (gen 3) = Returned tt ∧
  insert true (2 ^ 63) (gen 3) (with_receivers new_signal [gen 1; gen 2]) =
    (with_receivers new_signal [gen 1; gen 2], Raised OverflowError) ∧
  insert true (- 2 ^ 63 - 1) (gen 3) (with_receivers new_signal [gen 1; gen 2]) =
    (with_receivers new_signal [gen 1; gen 2], Raised OverflowError).
Proof. repeat split; reflexivity. Qed.

Lemma insert_never_out_of_range_witness :
  insert true 100 (gen 3) (with_receivers new_signal [gen 1; gen 2]) =
    (with_receivers new_signal [gen 1; gen 2; gen 3], Returned tt) ∧
  insert true (10 ^ 100) (gen 3) (with_receivers new_signal [gen 1; gen 2]) =
    (with_receivers new_signal [gen 1; gen 2], Raised OverflowError) ∧
  __getitem__ 100 (with_receivers new_signal [gen 1; gen 2]) =
    (with_receivers new_signal [gen 1; gen 2], Raised IndexError).
Proof.
  destruct (insert_never_out_of_range true (with_receivers new_signal [gen 1; gen 2])
              100 (gen 3) eq_refl) as (Hfits & _ & Hout).
  destruct Hfits as (l' & Hins & _ & Hend & _); [unfold PyList.fits; split; discriminate|].
  rewrite Hins, Hend by (simpl; lia). split; [reflexivity|]. split.
  - destruct (insert_never_out_of_range true (with_receivers new_signal [gen 1; gen 2])
                (10 ^ 100) (gen 3) eq_refl) as (_ & Hover & _).
    apply Hover. unfold PyList.fits. intros [_ Hmax]. by apply Hmax.
  - apply Hout. right. simpl. lia.
Defined.

End Concrete.

(** * Further properties of the methods *)

Section ListLike.
Context {V Y W : Type}.
Implicit Types (self s : @Signal V Y W) (receiver value : @Receiver V Y W).
Implicit Types (kwargs : gmap string V) (w : W).

Lemma with_receivers_same self : with_receivers self (_receivers self) = self.
Proof. by destruct self. Qed.

Lemma position_negative (n : nat) (i : Z) :
  - Z.of_nat n ≤ i < 0 →
  PyList.position n i = PyList.position n (i + Z.of_nat n).
Proof.
  intros Hi.
  destruct (PyList.position n (i + Z.of_nat n)) as [p|] eqn:Hp.
  - apply position_Some in Hp. apply position_Some. right.
    destruct Hp as [[? ->] | [? ->]]; [|lia]. split; [lia | f_equal; lia].
  - apply position_None in Hp. lia.
Qed.

(** X1: [clear] always returns and empties the sequence, keeping the
    parameter names: afterwards the length is 0, iteration in either
    direction yields nothing, nothing is contained, every index is out of
    range for [__getitem__] and [__delitem__], [send] returns at once without
    calling anything, and a second [clear] changes nothing. *)
Theorem clear_empties_signal self :
  ∃ self',
    clear self = (self', Returned tt) ∧
    _parameters self' = _parameters self ∧
    __len__ self' = (self', Returned 0%nat) ∧
    __iter__ self' = (self', Returned []) ∧
    __reversed__ self' = (self', Returned []) ∧
    (∀ value, __contains__ value self' = (self', Returned false)) ∧
    (∀ index, __getitem__ index self' = (self', Raised IndexError) ∧
              __delitem__ index self' = (self', Raised IndexError)) ∧
    (∀ kwargs w, send self' kwargs w = (w, [], Returned tt)) ∧
    clear self' = (self', Returned tt).
Proof.
  exists (with_receivers self []). repeat split.
  - rewrite getitem_unfold. unfold PyList.getitem. simpl.
    by rewrite (proj2 (position_None 0 index)) by lia.
  - rewrite delitem_unfold. simpl.
    by rewrite (proj2 (position_None 0 index)) by lia.
Qed.

(** X2: [__reversed__] yields the receivers of [__iter__] in the opposite
    order: it has the same length, and its item number [k] is the receiver
    [__getitem__] returns at index [-(k+1)]. *)
Theorem reversed_counts_from_the_end self k :
  (k < length (_receivers self))%nat →
  ∃ l r,
    __reversed__ self = (self, Returned l) ∧
    __iter__ self = (self, Returned (reverse l)) ∧
    length l = length (_receivers self) ∧
    l !! k = Some r ∧
    __getitem__ (- Z.of_nat (S k)) self = (self, Returned r).
Proof.
  intros Hk.
  destruct (lookup_lt_is_Some_2 (_receivers self) (length (_receivers self) - S k))
    as [r Hr]; [lia|].
  exists (reverse (_receivers self)), r.
  split; [reflexivity|]. split; [by rewrite reverse_involutive|].
  split; [apply length_reverse|]. split; [by rewrite reverse_lookup|].
  rewrite getitem_unfold. unfold PyList.getitem.
  assert (Hp : PyList.position (length (_receivers self)) (- Z.of_nat (S k)) =
               Some (length (_receivers self) - S k)%nat).
  { apply position_Some. right. split; lia. }
  by rewrite Hp, Hr.
Qed.

(** X4: a negative index within bounds designates the position counted
    from the end: [__getitem__], [__setitem__] and [__delitem__] at
    [index] do what they do at [index + len]. *)
Theorem negative_index_counts_from_the_end debug self index receiver :
  - Z.of_nat (length (_receivers self)) ≤ index < 0 →
  __getitem__ index self =
    __getitem__ (index + Z.of_nat (length (_receivers self))) self ∧
  __setitem__ debug index receiver self =
    __setitem__ debug (index + Z.of_nat (length (_receivers self))) receiver self ∧
  __delitem__ index self =
    __delitem__ (index + Z.of_nat (length (_receivers self))) self.
Proof.
  intros Hi. pose proof (position_negative _ _ Hi) as Hp.
  rewrite !getitem_unfold, !setitem_unfold, !delitem_unfold.
  unfold PyList.getitem, PyList.setitem. by rewrite Hp.
Qed.

End ListLike.

Section Mutation.
Context {V Y W : Type}.
Implicit Types (self s : @Signal V Y W) (receiver value : @Receiver V Y W).
Implicit Types (kwargs : gmap string V) (w : W) (op : @operation V Y W).

(** X5: an operation that raises leaves the signal as it was, and unless
    it is [send] it leaves the application state as it was. *)
Theorem failed_operation_changes_nothing debug op self w self' w' :
  perform debug op self w = (self', w', false) →
  self' = self ∧ ((∀ kwargs, op ≠ Send kwargs) → w' = w).
Proof.
  destruct op; simpl.
  1-5, 7-11: intros (-> & -> & Hok)%method_unfold; split; [|done]; revert Hok.
  - rewrite append_unfold. by destruct (validation _ _ _).
  - rewrite insert_unfold.
    destruct (validation _ _ _); [destruct (PyList.insert _ _ _)|]; done.
  - rewrite setitem_unfold.
    destruct (validation _ _ _); [destruct (PyList.setitem _ _ _)|]; done.
  - rewrite delitem_unfold. by destruct (PyList.position _ _).
  - done.
  - done.
  - done.
  - done.
  - done.
  - done.
  - destruct (send self kwargs w) as [[w1 tr] o]. intros [= <- <- _].
    split; [done|]. intros Hne. by destruct (Hne kwargs).
Qed.

(** X6: [__delitem__] undoes [insert]: at an index that fits a
    [Py_ssize_t], deleting at the position where [insert] put the receiver
    gives the signal back; for an index between 0 and the length that
    position is the index itself, and [__delitem__] at [-1] undoes
    [append]. *)
Theorem delitem_undoes_insert debug self index receiver :
  validation debug self receiver = Returned tt →
  (PyList.fits index →
   ∃ self',
     insert debug index receiver self = (self', Returned tt) ∧
     __delitem__ (Z.of_nat (PyList.insert_position (length (_receivers self)) index))
       self' = (self, Returned tt) ∧
     (0 ≤ index ≤ Z.of_nat (length (_receivers self)) →
      __delitem__ index self' = (self, Returned tt))) ∧
  (∃ self',
     append debug receiver self = (self', Returned tt) ∧
     __delitem__ (-1) self' = (self, Returned tt)).
Proof.
  intros Hvalid. split.
  - intros Hfits.
    exists (with_receivers self (PyList.ins1 (_receivers self) index receiver)).
    rewrite insert_unfold, Hvalid, list_insert_fits by done. split; [done|].
    pose proof (insert_position_le (length (_receivers self)) index) as Hle.
    assert (Hdel : __delitem__
              (Z.of_nat (PyList.insert_position (length (_receivers self)) index))
              (with_receivers self (PyList.ins1 (_receivers self) index receiver)) =
            (self, Returned tt)).
    { rewrite delitem_unfold. simpl. rewrite length_list_insert.
      set (p := PyList.insert_position (length (_receivers self)) index) in *.
      assert (Hp : PyList.position (S (length (_receivers self))) (Z.of_nat p) = Some p).
      { apply position_Some. left. split; [lia|]. by rewrite Nat2Z.id. }
      rewrite Hp. unfold PyList.ins1. fold p.
      pose proof (delete_middle (take p (_receivers self)) (drop p (_receivers self))
                    receiver) as Hmid.
      rewrite length_take_le in Hmid by lia.
      rewrite Hmid, take_drop. unfold with_receivers. simpl.
      by destruct self. }
    split; [exact Hdel|]. intros Hrange.
    rewrite (proj1 (proj2 (insert_position_cases _ _)) Hrange) in Hdel.
    by rewrite Z2Nat.id in Hdel by lia.
  - exists (with_receivers self (_receivers self ++ [receiver])).
    rewrite append_unfold, Hvalid. split; [done|].
    rewrite delitem_unfold. simpl. rewrite length_app. simpl.
    assert (Hp : PyList.position (length (_receivers self) + 1) (-1) =
                 Some (length (_receivers self))).
    { apply position_Some. right. split; lia. }
    rewrite Hp, delete_middle, app_nil_r. unfold with_receivers. simpl.
    by destruct self.
Qed.

(** X7: [append] is [insert] at the length, or at any index past the end
    that fits a [Py_ssize_t]. *)
Theorem append_is_insert_at_end debug self index receiver :
  Z.of_nat (length (_receivers self)) ≤ index →
  PyList.fits index →
  insert debug index receiver self = append debug receiver self.
Proof.
  intros Hi Hfits. rewrite insert_unfold, append_unfold, list_insert_fits by done.
  unfold PyList.ins1, PyList.append.
  rewrite (proj1 (insert_position_cases _ _) Hi).
  by rewrite take_ge, drop_ge by lia.
Qed.

(** X8: at an index within bounds, a second [__setitem__] overwrites the
    first: the signal is the one the second alone gives. *)
Theorem setitem_last_write_wins debug self index first second :
  validation debug self first = Returned tt →
  validation debug self second = Returned tt →
  - Z.of_nat (length (_receivers self)) ≤ index < Z.of_nat (length (_receivers self)) →
  ∃ self1,
    __setitem__ debug index first self = (self1, Returned tt) ∧
    __setitem__ debug index second self1 = __setitem__ debug index second self ∧
    snd (__setitem__ debug index second self) = Returned tt.
Proof.
  intros H1 H2 Hrange.
  destruct (PyList.position (length (_receivers self)) index) as [p|] eqn:Hp;
    [| apply position_None in Hp; lia].
  exists (with_receivers self (<[p := first]> (_receivers self))).
  rewrite !setitem_unfold. unfold validation in *. simpl.
  rewrite H1, H2. unfold PyList.setitem. rewrite length_insert, Hp.
  by rewrite list_insert_insert_eq.
Qed.

End Mutation.

Section Invariants.
Context {V Y W : Type}.
Implicit Types (self s : @Signal V Y W) (receiver value : @Receiver V Y W).
Implicit Types (kwargs : gmap string V) (w : W) (op : @operation V Y W).

Lemma validation_valid self receiver :
  validation true self receiver = Returned tt →
  iscoroutinefunction receiver = false ∧
  bind (signature receiver) (_parameters self) = Returned tt.
Proof. unfold validation. by destruct (iscoroutinefunction receiver). Qed.

Lemma perform_valid op self w self' w' ok :
  registered_valid self →
  perform true op self w = (self', w', ok) →
  registered_valid self'.
Proof.
  unfold registered_valid. intros Hvalid.
  destruct op; simpl.
  1-5, 7-11: intros (_ & -> & _)%method_unfold.
  - rewrite append_unfold.
    destruct (validation true self receiver) as [[]|] eqn:Hv; [|done]. simpl.
    apply Forall_app. split; [done|]. apply Forall_cons. split; [|done].
    by apply validation_valid.
  - rewrite insert_unfold.
    destruct (validation true self receiver) as [[]|] eqn:Hv; [|done].
    destruct (list_insert_cases (_receivers self) index receiver)
      as [[_ ->] | [_ ->]]; [|done]. simpl.
    unfold PyList.ins1. apply Forall_app. split; [by apply Forall_take|].
    apply Forall_cons. split; [by apply validation_valid | by apply Forall_drop].
  - rewrite setitem_unfold.
    destruct (validation true self receiver) as [[]|] eqn:Hv; [|done].
    unfold PyList.setitem. destruct (PyList.position _ _); [|done]. simpl.
    apply Forall_insert; [done | by apply validation_valid].
  - rewrite delitem_unfold. destruct (PyList.position _ _); [|done]. simpl.
    by apply Forall_delete.
  - simpl. constructor.
  - done.
  - done.
  - done.
  - done.
  - done.
  - destruct (send self kwargs w) as [[? ?] ?]. by intros [= <- _ _].
Qed.

Lemma run_parameters debug ops : ∀ self w self' w' journal,
  run debug ops self w = (self', w', journal) →
  _parameters self' = _parameters self.
Proof.
  induction ops as [|op ops IH]; intros self w self' w' journal; simpl.
  - by intros [= <- _ _].
  - destruct (perform debug op self w) as [[self1 w1] ok] eqn:Hperform.
    destruct (run debug ops self1 w1) as [[self2 w2] journal2] eqn:Hrun.
    intros [= <- _ _]. rewrite (IH _ _ _ _ _ Hrun).
    by apply perform_parameters in Hperform.
Qed.

(** X9: in a validating build every receiver a signal holds has passed
    the checks, whatever operations were applied since [__init__]: none is
    a coroutine function, and the signature of each binds one keyword per
    parameter name. *)
Theorem validating_build_keeps_receivers_valid parameters ops w self' w' journal :
  run true ops (__init__ parameters) w = (self', w', journal) →
  registered_valid self' ∧
  ∀ receiver,
    receiver ∈ _receivers self' →
    iscoroutinefunction receiver = false ∧
    bind (signature receiver) (list_to_set parameters) = Returned tt.
Proof.
  assert (Hinv : ∀ ops self w self' w' journal,
    registered_valid self →
    run true ops self w = (self', w', journal) → registered_valid self').
  { clear. induction ops as [|op ops IH]; intros self w self' w' journal Hvalid; simpl.
    - by intros [= <- _ _].
    - destruct (perform true op self w) as [[self1 w1] ok] eqn:Hperform.
      destruct (run true ops self1 w1) as [[self2 w2] journal2] eqn:Hrun.
      intros [= <- _ _]. apply (IH _ _ _ _ _ (perform_valid _ _ _ _ _ _ Hvalid Hperform) Hrun). }
  intros Hrun.
  assert (Hvalid : registered_valid self').
  { apply (Hinv _ _ _ _ _ _ (Forall_nil_2 _ : registered_valid (__init__ parameters)) Hrun). }
  split; [exact Hvalid|].
  intros receiver Hin.
  unfold registered_valid in Hvalid. rewrite Forall_forall in Hvalid.
  destruct (Hvalid _ Hin) as [Hco Hbind].
  rewrite (run_parameters _ _ _ _ _ _ _ Hrun) in Hbind. by split.
Qed.

(** X10: what registration answers for a receiver does not change over
    the life of the signal: after any operations, [append] and [insert]
    of that receiver return or raise as they did before, and [insert] at
    an index that fits a [Py_ssize_t] answers as [append] does. *)
Theorem registration_outcome_is_stable debug ops self w self' w' journal index receiver :
  run debug ops self w = (self', w', journal) →
  snd (append debug receiver self') = snd (append debug receiver self) ∧
  snd (insert debug index receiver self') = snd (insert debug index receiver self) ∧
  (PyList.fits index →
   snd (insert debug index receiver self') = snd (append debug receiver self')).
Proof.
  intros Hrun. apply run_parameters in Hrun.
  rewrite !append_unfold, !insert_unfold. unfold validation. rewrite Hrun.
  split; [|split].
  - destruct debug; [|done].
    destruct (iscoroutinefunction receiver); [done|].
    by destruct (bind _ _) as [[]|].
  - destruct (list_insert_cases (_receivers self') index receiver)
      as [[Hfits ->] | [Hno ->]].
    + rewrite (list_insert_fits (_receivers self)) by done.
      destruct debug; [|done].
      destruct (iscoroutinefunction receiver); [done|].
      by destruct (bind _ _) as [[]|].
    + rewrite (list_insert_overflow (_receivers self)) by done.
      destruct debug; [|done].
      destruct (iscoroutinefunction receiver); [done|].
      by destruct (bind _ _) as [[]|].
  - intros Hfits. rewrite list_insert_fits by done.
    destruct debug; [|done].
    destruct (iscoroutinefunction receiver); [done|].
    by destruct (bind _ _) as [[]|].
Qed.

(** X11: [__init__] keeps the set of the names it is given: two lists
    with the same members, in any order and with any repetitions, make the
    same signal, which holds no receiver. *)
Theorem init_keeps_the_set_of_names (parameters1 parameters2 : list string) :
  (∀ x, x ∈ parameters1 ↔ x ∈ parameters2) ↔
  @__init__ V Y W parameters1 = __init__ parameters2.
Proof.
  unfold __init__. split.
  - intros Hsame. f_equal. apply set_eq. intros x.
    rewrite !elem_of_list_to_set. apply Hsame.
  - intros [= Heq] x. by rewrite <- !(elem_of_list_to_set (C:=gset string)), Heq.
Qed.

Lemma list_contains_false (l : list (@Receiver V Y W)) value :
  Forall (fun item => rid item ≠ rid value ∧ equals item (rid value) = Returned false) l →
  list_contains l value = Returned false.
Proof.
  induction 1 as [|item l [Hid Heq] _ IH]; simpl; [done|].
  apply Nat.eqb_neq in Hid. by rewrite Hid, Heq.
Qed.

Lemma list_contains_delete (l : list (@Receiver V Y W)) value : ∀ p removed,
  l !! p = Some removed →
  rid removed ≠ rid value →
  equals removed (rid value) = Returned false →
  list_contains (delete p l) value = list_contains l value.
Proof.
  induction l as [|item l IH]; intros [|p] removed Hat Hid Heq; try done.
  - injection Hat as ->. simpl. apply Nat.eqb_neq in Hid. by rewrite Hid, Heq.
  - simpl in Hat. change (delete (S p) (item :: l)) with (item :: delete p l).
    simpl. by rewrite (IH p removed).
Qed.

(** X12: disconnecting a receiver: when no receiver at another position
    is the receiver at an index within bounds, or equal to it,
    [__delitem__] there leaves a signal that no longer contains it; and
    [__contains__] answers as before for every value that is neither the
    removed receiver nor equal to it. *)
Theorem delitem_disconnects self index p receiver :
  PyList.position (length (_receivers self)) index = Some p →
  _receivers self !! p = Some receiver →
  (∀ q other, q ≠ p → _receivers self !! q = Some other →
     rid other ≠ rid receiver ∧ equals other (rid receiver) = Returned false) →
  ∃ self',
    __delitem__ index self = (self', Returned tt) ∧
    __contains__ receiver self' = (self', Returned false) ∧
    ∀ value,
      rid receiver ≠ rid value →
      equals receiver (rid value) = Returned false →
      snd (__contains__ value self') = snd (__contains__ value self).
Proof.
  intros Hp Hat Honly.
  exists (with_receivers self (delete p (_receivers self))).
  rewrite delitem_unfold, Hp. split; [done|]. split.
  - unfold __contains__, get_self, lift, mbind, M_bind. simpl. f_equal.
    apply list_contains_false, Forall_lookup_2. intros j x Hj.
    destruct (decide (j < p)%nat).
    + rewrite list_lookup_delete_lt in Hj by done. apply (Honly j); [lia | done].
    + rewrite list_lookup_delete_ge in Hj by lia. apply (Honly (S j)); [lia | done].
  - intros value Hid Heq.
    unfold __contains__, get_self, lift, mbind, M_bind. simpl.
    by apply (list_contains_delete _ _ p receiver).
Qed.

End Invariants.

Section MoreDispatch.
Context {V Y W : Type}.
Implicit Types (self s : @Signal V Y W) (receiver value : @Receiver V Y W).
Implicit Types (kwargs : gmap string V) (w : W) (it : @iterator Y W).
Implicit Types (tr : list (@event V Y)) (ys : list Y) (yss : list (list Y)).
Implicit Types (receivers before after : list (@Receiver V Y W)).

Lemma send_loop_app before after kwargs : ∀ w,
  send_loop (before ++ after) kwargs w =
  match send_loop before kwargs w with
  | (w1, tr1, Returned _) =>
      let '(w2, tr2, o) := send_loop after kwargs w1 in (w2, tr1 ++ tr2, o)
  | (w1, tr1, Raised e) => (w1, tr1, Raised e)
  end.
Proof.
  induction before as [|receiver before IH]; intros w.
  - simpl. unfold mret, D_ret. by destruct (send_loop after kwargs w) as [[? ?] ?].
  - change ((receiver :: before) ++ after) with (receiver :: (before ++ after)).
    rewrite !send_loop_cons.
    destruct (dispatch receiver kwargs w) as [[w1 tr1] [[]|e]]; [|done].
    rewrite IH.
    destruct (send_loop before kwargs w1) as [[w2 tr2] [[]|e]]; [|done].
    destruct (send_loop after kwargs w2) as [[w3 tr3] o].
    by rewrite app_assoc.
Qed.

(** X13: [send] follows the order the registrations built: a receiver
    that [append] registered is dispatched after all the others, and only
    if they all completed; a receiver that [insert] put at index 0 is
    dispatched before all the others, which follow only if it completed. *)
Theorem appended_receiver_is_dispatched_last debug self receiver kwargs w :
  validation debug self receiver = Returned tt →
  (∃ self',
     append debug receiver self = (self', Returned tt) ∧
     send self' kwargs w =
       match send self kwargs w with
       | (w1, tr1, Returned _) =>
           let '(w2, tr2, o) := dispatch receiver kwargs w1 in (w2, tr1 ++ tr2, o)
       | (w1, tr1, Raised e) => (w1, tr1, Raised e)
       end) ∧
  (∃ self',
     insert debug 0 receiver self = (self', Returned tt) ∧
     send self' kwargs w =
       match dispatch receiver kwargs w with
       | (w1, tr1, Returned _) =>
           let '(w2, tr2, o) := send self kwargs w1 in (w2, tr1 ++ tr2, o)
       | (w1, tr1, Raised e) => (w1, tr1, Raised e)
       end).
Proof.
  intros Hvalid. split.
  - exists (with_receivers self (_receivers self ++ [receiver])).
    rewrite append_unfold, Hvalid. split; [done|].
    unfold send. simpl. rewrite send_loop_app.
    destruct (send_loop (_receivers self) kwargs w) as [[w1 tr1] [[]|e]]; [|done].
    rewrite send_loop_cons.
    destruct (dispatch receiver kwargs w1) as [[w2 tr2] [[]|e]]; simpl;
      by rewrite ?app_nil_r.
  - exists (with_receivers self (receiver :: _receivers self)).
    rewrite insert_unfold, Hvalid. split.
    { rewrite list_insert_fits by (unfold PyList.fits; split; discriminate).
      unfold PyList.ins1.
      by rewrite (proj1 (proj2 (insert_position_cases _ 0))) by lia. }
    reflexivity.
Qed.

(** X14: in every run of [send], with or without a failure, the trace is
    the completed turns of the first [k] receivers, one after the other,
    followed, when [send] raises, by the unfinished turn of receiver
    number [k] and nothing else: no receiver is called while another is
    still running, and none after a failure. *)
Theorem send_never_overlaps_receivers self kwargs w :
  ∃ k yss pending,
    (k ≤ length (_receivers self))%nat ∧ length yss = k ∧
    snd (fst (send self kwargs w)) =
      concat (zip_with (turn kwargs) (take k (_receivers self)) yss) ++ pending ∧
    match snd (send self kwargs w) with
    | Returned _ => k = length (_receivers self) ∧ pending = []
    | Raised _ =>
        ∃ receiver ys, _receivers self !! k = Some receiver ∧
                       pending = Invoke (rid receiver) kwargs :: (Suspend <$> ys)
    end.
Proof.
  unfold send. revert w. generalize (_receivers self). intros receivers.
  induction receivers as [|receiver receivers IH]; intros w.
  - by exists 0%nat, [], [].
  - rewrite send_loop_cons, dispatch_unfold.
    destruct (call receiver kwargs w) as [[w1 tr1] [[|it]|e]].
    + exists 0%nat, [], [Invoke (rid receiver) kwargs]. simpl.
      repeat split; [lia|]. by exists receiver, [].
    + destruct (exhaust_trace (V:=V) it w1) as [ys Hys].
      destruct (exhaust it w1) as [[w2 tr2] [[]|e]]; simpl in Hys; subst tr2.
      * destruct (IH w2) as (k & yss & pending & Hk & Hlen & Htr & Hout).
        destruct (send_loop receivers kwargs w2) as [[w3 tr3] o]. simpl in *.
        exists (S k), (ys :: yss), pending. simpl.
        split; [lia|]. split; [by rewrite Hlen|].
        split; [rewrite Htr; unfold turn; simpl; by rewrite <- !app_assoc|].
        destruct o; [|done]. destruct Hout as [-> ->]. done.
      * exists 0%nat, [], (Invoke (rid receiver) kwargs :: (Suspend <$> ys)). simpl.
        repeat split; [lia|]. by exists receiver, ys.
    + exists 0%nat, [], [Invoke (rid receiver) kwargs]. simpl.
      repeat split; [lia|]. by exists receiver, [].
Qed.

Lemma send_loop_raised receivers kwargs : ∀ w w' tr e,
  send_loop receivers kwargs w = (w', tr, Raised e) →
  ∃ before receiver after w1 yss tr',
    receivers = before ++ receiver :: after ∧
    all_complete before kwargs w w1 yss ∧
    dispatch receiver kwargs w1 = (w', tr', Raised e) ∧
    tr = concat (zip_with (turn kwargs) before yss) ++ tr'.
Proof.
  induction receivers as [|receiver receivers IH]; intros w w' tr e; [done|].
  rewrite send_loop_cons.
  destruct (dispatch receiver kwargs w) as [[w1 tr1] [[]|e1]] eqn:Hd.
  - destruct (send_loop receivers kwargs w1) as [[w2 tr2] o] eqn:Hs.
    intros [= <- <- ->].
    apply dispatch_returned in Hd as (ys & Hr & ->).
    apply IH in Hs as (before & r & after & w3 & yss & tr' & -> & Hall & Hfail & ->).
    exists (receiver :: before), r, after, w3, (ys :: yss), tr'.
    split; [done|]. split; [simpl; eauto|]. split; [done|].
    cbn [zip_with concat]. by rewrite <- app_assoc.
  - intros [= <- <- <-].
    by exists [], receiver, receivers, w, [], tr1.
Qed.

(** X15: [send] raises only when the dispatch of some receiver fails: the
    receivers before it all completed, and either that receiver raised
    the exception, in its call or while what it returned was iterated, or
    it returned an object that cannot be iterated and the exception is
    [TypeError]. *)
Theorem send_raises_only_when_a_receiver_fails self kwargs w w' tr e :
  send self kwargs w = (w', tr, Raised e) →
  ∃ before receiver after w1 yss tr',
    _receivers self = before ++ receiver :: after ∧
    all_complete before kwargs w w1 yss ∧
    tr = concat (zip_with (turn kwargs) before yss) ++
         Invoke (rid receiver) kwargs :: tr' ∧
    (raises receiver kwargs w1 w' tr' e ∨
     (call receiver kwargs w1 = (w', [], Returned NotIterable) ∧
      e = TypeError ∧ tr' = [])).
Proof.
  intros Hsend. apply send_loop_raised in Hsend
    as (before & receiver & after & w1 & yss & tr' & Hsplit & Hall & Hfail & ->).
  rewrite dispatch_unfold in Hfail.
  destruct (call receiver kwargs w1) as [[w2 tr2] [[|it]|e2]] eqn:Hcall;
    pose proof (call_trace _ _ _ _ _ _ Hcall) as ->.
  - injection Hfail as <- <- <-.
    exists before, receiver, after, w1, yss, []. repeat split; try done. by right.
  - destruct (exhaust it w2) as [[w3 tr3] [[]|e3]] eqn:Hrun; [done|].
    injection Hfail as <- <- <-.
    exists before, receiver, after, w1, yss, tr3. repeat split; try done.
    left. right. by exists w2, it.
  - injection Hfail as <- <- <-.
    exists before, receiver, after, w1, yss, []. repeat split; try done.
    left. left. done.
Qed.

End MoreDispatch.

Section MoreConcrete.
Import Examples.

Lemma reversed_counts_from_the_end_witness :
  ∃ l r,
    __reversed__ (with_receivers new_signal [gen 1; gen 2]) =
      (with_receivers new_signal [gen 1; gen 2], Returned l) ∧
    l !! 0%nat = Some r ∧ rid r = 2%nat.
Proof.
  destruct (reversed_counts_from_the_end (with_receivers new_signal [gen 1; gen 2]) 0)
    as (l & r & Hrev & _ & _ & Hk & Hget); [simpl; lia|].
  exists l, r. split; [exact Hrev|]. split; [exact Hk|].
  rewrite getitem_unfold in Hget. by injection Hget as <-.
Defined.

Lemma negative_index_counts_from_the_end_witness :
  __getitem__ (-1) (with_receivers new_signal [gen 1; gen 2]) =
  __getitem__ 1 (with_receivers new_signal [gen 1; gen 2]).
Proof.
  apply (negative_index_counts_from_the_end true
           (with_receivers new_signal [gen 1; gen 2]) (-1) (gen 3)).
  simpl. lia.
Defined.

Lemma failed_operation_changes_nothing_witness :
  ∃ self' w',
    perform true (Insert (2 ^ 63) (gen 2)) (with_receivers new_signal [gen 1]) [5]%nat =
      (self', w', false) ∧
    self' = with_receivers new_signal [gen 1] ∧ w' = [5]%nat.
Proof.
  eexists _, _. split; [reflexivity|].
  destruct (failed_operation_changes_nothing true (Insert (2 ^ 63) (gen 2))
              (with_receivers new_signal [gen 1]) [5]%nat _ _ eq_refl) as [Hself Hw].
  split; [exact Hself|]. apply Hw. intros kwargs. discriminate.
Defined.

Lemma delitem_undoes_insert_witness :
  ∃ self',
    insert true 1 (gen 3) (with_receivers new_signal [gen 1; gen 2]) =
      (self', Returned tt) ∧
    __delitem__ 1 self' = (with_receivers new_signal [gen 1; gen 2], Returned tt).
Proof.
  destruct (delitem_undoes_insert true (with_receivers new_signal [gen 1; gen 2])
              1 (gen 3) eq_refl) as [Hfits _].
  destruct Hfits as (self' & Hins & _ & Hdel); [unfold PyList.fits; split; discriminate|].
  exists self'. split; [exact Hins|]. apply Hdel. simpl. lia.
Defined.

Lemma append_is_insert_at_end_witness :
  insert true 7 (gen 3) (with_receivers new_signal [gen 1; gen 2]) =
  append true (gen 3) (with_receivers new_signal [gen 1; gen 2]).
Proof.
  apply (append_is_insert_at_end true (with_receivers new_signal [gen 1; gen 2])
           7 (gen 3)).
  - simpl. lia.
  - unfold PyList.fits. split; discriminate.
Defined.

Lemma setitem_last_write_wins_witness :
  ∃ self1,
    __setitem__ true 0 (gen 5) (with_receivers new_signal [gen 1; gen 2]) =
      (self1, Returned tt) ∧
    __setitem__ true 0 (gen 6) self1 =
      (with_receivers new_signal [gen 6; gen 2], Returned tt).
Proof.
  destruct (setitem_last_write_wins true (with_receivers new_signal [gen 1; gen 2])
              0 (gen 5) (gen 6) eq_refl eq_refl) as (self1 & H1 & H2 & _);
    [simpl; lia|].
  exists self1. split; [exact H1|]. rewrite H2. reflexivity.
Defined.

Lemma validating_build_keeps_receivers_valid_witness :
  ∃ self' w' journal,
    run true ops0 (__init__ ["name"; "value"]%string) [] = (self', w', journal) ∧
    registered_valid self'.
Proof.
  eexists _, _, _. split; [reflexivity|].
  refine (proj1 (validating_build_keeps_receivers_valid
                   ["name"; "value"]%string ops0 [] _ _ _ eq_refl)).
Defined.

Lemma registration_outcome_is_stable_witness :
  ∃ self' w' journal,
    run true ops1 new_signal [] = (self', w', journal) ∧
    snd (append true (short 1) self') = snd (append true (short 1) new_signal).
Proof.
  eexists _, _, _. split; [reflexivity|].
  refine (proj1 (registration_outcome_is_stable true ops1 new_signal [] _ _ _ 0
                   (short 1) eq_refl)).
Defined.

Lemma init_keeps_the_set_of_names_witness :
  @__init__ Z nat (list nat) ["name"; "value"]%string =
  __init__ ["value"; "name"; "value"]%string.
Proof.
  apply (proj1 (init_keeps_the_set_of_names
                  ["name"; "value"]%string ["value"; "name"; "value"]%string)).
  intros x. rewrite !elem_of_cons, !elem_of_nil. tauto.
Defined.

Lemma delitem_disconnects_witness :
  ∃ self',
    __delitem__ (-1) (with_receivers new_signal [gen 1; gen 2]) =
      (self', Returned tt) ∧
    __contains__ (gen 2) self' = (self', Returned false).
Proof.
  destruct (delitem_disconnects (with_receivers new_signal [gen 1; gen 2])
              (-1) 1%nat (gen 2) eq_refl eq_refl) as (self' & Hdel & Hno & _).
  - intros [|[|q]] other Hq Hother; simpl in Hother; try done.
    injection Hother as <-. split; [discriminate | reflexivity].
  - exists self'. split; assumption.
Defined.

(* two bound methods of one object are equal without being identical:
   each is contained in a list that holds the other *)
Lemma equal_bound_method_is_contained :
  __contains__ (bound 1 [2]%nat) (with_receivers new_signal [gen 7; bound 2 [1]%nat]) =
    (with_receivers new_signal [gen 7; bound 2 [1]%nat], Returned true).
Proof. reflexivity. Qed.

Lemma appended_receiver_is_dispatched_last_witness :
  ∃ self',
    append true (gen 2) (with_receivers new_signal [gen 1]) = (self', Returned tt) ∧
    fst (fst (send self' arguments [])) = [1; 1; 2; 2]%nat.
Proof.
  destruct (appended_receiver_is_dispatched_last true
              (with_receivers new_signal [gen 1]) (gen 2) arguments [] eq_refl)
    as [(self' & Happ & Hsend) _].
  exists self'. split; [exact Happ|]. rewrite Hsend. reflexivity.
Defined.

Lemma send_raises_only_when_a_receiver_fails_witness :
  ∃ before receiver after w1 yss,
    [gen 1; failing 2; gen 3] = before ++ receiver :: after ∧
    all_complete before arguments [] w1 yss.
Proof.
  destruct (send_raises_only_when_a_receiver_fails
              (with_receivers new_signal [gen 1; failing 2; gen 3]) arguments []
              [1; 1; 2]%nat
              [Invoke 1 arguments; Suspend 1%nat; Complete 1; Invoke 2 arguments]
              (Exception "boom") eq_refl)
    as (before & receiver & after & w1 & yss & tr' & Hsplit & Hall & _).
  exists before, receiver, after, w1, yss. split; [exact Hsplit | exact Hall].
Defined.

End MoreConcrete.
